(** * CarbonExplorer: [src/download_and_process.py]

    A shallow embedding of the record loader ([prepareEIAData]), the range
    extractor ([extractBARange]) and the carbon aggregator
    ([calculateAVGCarbonIntensity]), with the properties the specification
    states about them.

    Conventions of the embedding.
    - A pandas [Timestamp] is its wall-clock reading in nanoseconds since
      1970-01-01T00:00 together with its [tzinfo]: [None] for a naive
      timestamp, [Some off] for an aware one, [off] being the offset from
      UTC in nanoseconds.  Timestamp strings of the record file are held
      parsed; a string pandas cannot parse has no counterpart here.
    - A calendar-day string is held as its day number (days since
      1970-01-01); [civil] computes it from year, month and day.
    - The loaded frame [eba_json] is the list of its rows; it has the
      columns [series_id], [start], [end] and [data].
    - Generation values are integers, as the record file gives them.
    - [print] is modelled by a list of printed notices, an exception by
      the [Raise] result. *)

From Stdlib Require Import ZArith QArith.QArith_base QArith.Qreduction Lia Ascii String.
From stdpp Require Import base list sorting strings gmap.

Local Open Scope string_scope.
Local Open Scope list_scope.
Local Open Scope Z_scope.

(** ** Exceptions and results *)

Inductive Exception :=
  | ValueError_duplicate_labels  (* reindex on an axis with duplicate labels *)
  | KeyError (c : string)        (* db[c] for a column label that is absent *)
  | AttributeError.              (* m.group(..) where m is None *)

Inductive result (A : Type) :=
  | Ok (a : A)
  | Raise (e : Exception).
Arguments Ok {A} a.
Arguments Raise {A} e.

(** ** Timestamps *)

Record Timestamp := { wall : Z; tzinfo : option Z }.

Definition hour_ns : Z := 3600 * 1000000000.
Definition day_ns : Z := 24 * hour_ns.

Definition UTC : Z := 0.

(** [timestamp.tz_localize('UTC')]: a naive reading is declared to be UTC. *)
Definition tz_localize (timestamp : Timestamp) (tz : Z) : Timestamp :=
  {| wall := wall timestamp; tzinfo := Some tz |}.

(** [timestamp.tz_convert('UTC')] on a timestamp of offset [off]: the same
    instant, read on the UTC clock. *)
Definition tz_convert (off : Z) (timestamp : Timestamp) (tz : Z) : Timestamp :=
  {| wall := wall timestamp - off + tz; tzinfo := Some tz |}.

Definition normalize_to_utc (timestamp : Timestamp) : Timestamp :=
  match tzinfo timestamp with
  | None => tz_localize timestamp UTC
  | Some off => tz_convert off timestamp UTC
  end.

(** The instant of an aware timestamp, in nanoseconds since the epoch
    ([Timestamp.value]); aware timestamps compare by it. *)
Definition value (t : Timestamp) : Z := wall t - default 0 (tzinfo t).

Definition ts_lt (a b : Timestamp) : bool := value a <? value b.
Definition ts_le (a b : Timestamp) : bool := value a <=? value b.
Definition ts_gt (a b : Timestamp) : bool := ts_lt b a.
Definition ts_ge (a b : Timestamp) : bool := ts_le b a.

(** [pd.to_datetime(.., utc=True)] on one entry: a naive reading is taken
    as UTC, an aware one is converted; the column then holds UTC instants. *)
Definition to_datetime_utc (t : Timestamp) : Z :=
  match tzinfo t with
  | None => wall t
  | Some off => wall t - off
  end.

(** Day number of a calendar date (proleptic Gregorian calendar). *)
Definition civil (y m d : Z) : Z :=
  let y' := if m <=? 2 then y - 1 else y in
  let era := y' / 400 in
  let yoe := y' - era * 400 in
  let mp := (m + 9) mod 12 in
  let doy := (153 * mp + 2) / 5 + d - 1 in
  let doe := yoe * 365 + yoe / 4 - yoe / 100 + doy in
  era * 146097 + doe - 719468.

(** [pd.Timestamp('{0}T00Z'.format(day), tz='UTC')] *)
Definition midnight_utc (day : Z) : Timestamp :=
  {| wall := day * day_ns; tzinfo := Some UTC |}.

(** [pd.date_range(start_day, end_day, freq="H", tz='UTC')]: the hours from
    [start_day] 00:00 to [end_day] 00:00, both included; empty when
    [end_day] is before [start_day]. *)
Definition date_range (start_day end_day : Z) : list Z :=
  (fun k => start_day * day_ns + k * hour_ns) <$> seqZ 0 ((end_day - start_day) * 24 + 1).

(** ** Records and tables *)

(** One line of [EBA.txt].  [series_id] is [None] when the line has no
    [series_id] or one that is not a string. *)
Record RawRecord := {
  series_id : option string;
  start : Timestamp;
  end_ : Timestamp;
  data : list (Timestamp * Z)
}.

(** A data frame: index labels, column labels, and the cells row by row. *)
Record DataFrame (A : Type) := {
  index : list Z;
  columns : list string;
  values : list (list A)
}.
Arguments index {A} _.
Arguments columns {A} _.
Arguments values {A} _.

Definition cell {A} (db : DataFrame A) (i j : nat) : option A :=
  values db !! i ≫= fun row => row !! j.

(** Energy types *)
Definition ng_list : list string :=
  ["WND"; "SUN"; "WAT"; "OIL"; "NG"; "COL"; "NUC"; "OTH"].

(** Renewable energy types *)
Definition rn_list : list string := ["WND"; "SUN"; "WAT"].

(** Carbon intensity of the energy types, gCO2eq/kWh; a Python dict, which
    iterates in insertion order. *)
Definition carbon_intensity : list (string * Z) :=
  [("WND", 11); ("SUN", 41); ("WAT", 24); ("OIL", 650);
   ("NG", 490); ("COL", 820); ("NUC", 12); ("OTH", 230)].

(** ** Printed notices and the output monad of [extractBARange] *)

Inductive Printed :=
  | IndexedStartPrecedes (start_idx : Timestamp) (ng_idx : string) (start_dat : Timestamp)
  | IndexedEndBeyond (end_idx : Timestamp) (ng_idx : string) (end_dat : Timestamp).

Definition Out (A : Type) : Type := (list Printed * result A)%type.

Definition out_ret {A} (a : A) : Out A := ([], Ok a).

Definition out_bind {A B} (m : Out A) (f : A -> Out B) : Out B :=
  match m with
  | (w, Ok a) => let '(w', r) := f a in (w ++ w', r)
  | (w, Raise e) => (w, Raise e)
  end.

Definition print_when (b : bool) (p : Printed) : Out unit :=
  if b then ([p], Ok tt) else ([], Ok tt).

Notation "x <- m ;; k" := (out_bind m (fun x => k))
  (at level 100, m at next level, right associativity).
Notation "m ;;; k" := (out_bind m (fun _ => k))
  (at level 100, right associativity).

(** ** Range extractor *)

Definition series_name (ba_idx ng_idx : string) : string :=
  "EBA." +:+ ba_idx +:+ "-ALL.NG." +:+ ng_idx +:+ ".H".

(** [eba_json[eba_json['series_id'] == series_idx]] *)
Definition select_series (eba_json : list RawRecord) (series_idx : string) : list RawRecord :=
  List.filter (fun r => bool_decide (series_id r = Some series_idx)) eba_json.

Definition in_range (start_idx end_idx : Timestamp) (x : Timestamp * Z) : bool :=
  ts_ge (normalize_to_utc x.1) start_idx && ts_le (normalize_to_utc x.1) end_idx.

(** [df.sort_values(by=['timestamp'], ascending=True)] on (timestamp, power)
    rows.  Which sort it is does not matter: rows with distinct timestamps
    have one ascending order, and [reindex] below refuses the others. *)
Definition by_timestamp (a b : Z * Z) : Prop := a.1 <= b.1.

#[local] Instance by_timestamp_dec : RelDecision by_timestamp :=
  fun a b => decide (a.1 <= b.1).

Definition sort_values (df : list (Z * Z)) : list (Z * Z) :=
  merge_sort by_timestamp df.

(** The power found at label [t], if any. *)
Fixpoint loc (df : list (Z * Z)) (t : Z) : option Z :=
  match df with
  | [] => None
  | (t', p) :: df' => if bool_decide (t' = t) then Some p else loc df' t
  end.

(** [df.set_index('timestamp').reindex(index=idx, fill_value=0)], then the
    [power] column.  pandas refuses to reindex a frame whose index holds a
    label twice ("cannot reindex on an axis with duplicate labels"). *)
Definition reindex (df : list (Z * Z)) (idx : list Z) (fill_value : Z) : result (list Z) :=
  if bool_decide (NoDup df.*1)
  then Ok ((fun t => default fill_value (loc df t)) <$> idx)
  else Raise ValueError_duplicate_labels.

(** The (timestamp, power) pairs of a record that lie in the range, with
    their timestamps as UTC instants: lines 165 to 176. *)
Definition filtered_frame (start_idx end_idx : Timestamp) (r : RawRecord) : list (Z * Z) :=
  let tuple_list := data r in
  let tuple_filtered := List.filter (in_range start_idx end_idx) tuple_list in
  (fun x => (to_datetime_utc x.1, x.2)) <$> tuple_filtered.

(** One turn of the loop over [ng_list]: the column of one energy type. *)
Definition fuel_column (eba_json : list RawRecord) (ba_idx : string)
    (start_idx end_idx : Timestamp) (idx : list Z) (ng_idx : string) : Out (list Z) :=
  let series_idx := series_name ba_idx ng_idx in
  let this_json := select_series eba_json series_idx in
  match this_json with
  | [] => out_ret (replicate (length idx) 0)
  | r :: _ =>
      let start_dat := normalize_to_utc (start r) in
      let end_dat := normalize_to_utc (end_ r) in
      print_when (ts_lt start_idx start_dat)
                 (IndexedStartPrecedes start_idx ng_idx start_dat) ;;;
      print_when (ts_gt end_idx end_dat)
                 (IndexedEndBeyond end_idx ng_idx end_dat) ;;;
      let df := sort_values (filtered_frame start_idx end_idx r) in
      (match reindex df idx 0 with
       | Ok power => out_ret power
       | Raise e => ([], Raise e)
       end)
  end.

(** The loop itself: the columns are appended to [ba_list] in turn. *)
Fixpoint fuel_loop (column : string -> Out (list Z)) (fuels : list string)
    : Out (list (list Z)) :=
  match fuels with
  | [] => out_ret []
  | ng_idx :: fuels' =>
      c <- column ng_idx ;;
      ba_list <- fuel_loop column fuels' ;;
      out_ret (c :: ba_list)
  end.

(** [np.array(ba_list).transpose()], for columns of [n] entries each. *)
Fixpoint transpose (n : nat) (ba_list : list (list Z)) : list (list Z) :=
  match ba_list with
  | [] => replicate n []
  | c :: cs => zip_with cons c (transpose n cs)
  end.

(** [eba_json] is the global the loader has filled. *)
Definition extractBARange (eba_json : list RawRecord) (ba_idx : string)
    (start_day end_day : Z) : Out (DataFrame Z) :=
  let start_idx := midnight_utc start_day in
  let end_idx := midnight_utc end_day in
  let idx := date_range start_day end_day in
  ba_list <- fuel_loop (fuel_column eba_json ba_idx start_idx end_idx idx) ng_list ;;
  out_ret {| index := idx; columns := ng_list;
             values := transpose (length idx) ba_list |}.


(** ** Carbon aggregator *)

(** A float64 cell of the result.  A finite quotient is kept as the exact
    fraction in lowest terms; its rounding to float64 is not modelled. *)
Inductive float :=
  | NaN
  | Inf (negative : bool)
  | Fin (q : Q).

(** True division of two integer cells, as [Series.div] computes it:
    0/0 is not-a-number, x/0 is an infinity, nothing raises. *)
Definition true_divide (a b : Z) : float :=
  if b =? 0 then (if a =? 0 then NaN else Inf (a <? 0))
  else Fin (Qred (Qmake (a * Z.sgn b) (Z.to_pos (Z.abs b)))).

(** [db[db < 0] = 0] *)
Definition clip_cell (x : Z) : Z := if x <? 0 then 0 else x.

Definition clip_negative (db : DataFrame Z) : DataFrame Z :=
  {| index := index db; columns := columns db;
     values := (fun row : list Z => clip_cell <$> row) <$> values db |}.

(** [db.sum(axis=1)]: the sum of every column, row by row. *)
Definition sum_row (row : list Z) : Z := foldr Z.add 0 row.

Definition sum_axis1 (db : DataFrame Z) : list Z := sum_row <$> values db.

Fixpoint position (c : string) (cols : list string) : option nat :=
  match cols with
  | [] => None
  | c' :: cols' => if bool_decide (c' = c) then Some 0%nat else S <$> position c cols'
  end.

(** [db[c]]: the column labelled [c]; a row has one cell per column. *)
Definition getitem (db : DataFrame Z) (c : string) : result (list Z) :=
  match position c (columns db) with
  | None => Raise (KeyError c)
  | Some j => Ok ((fun row : list Z => default 0 (row !! j)) <$> values db)
  end.

(** The loop over the items of [carbon_intensity]. *)
Fixpoint intensity_loop (db : DataFrame Z) (items : list (string * Z))
    (tot_carbon : option (list Z)) : result (option (list Z)) :=
  match items with
  | [] => Ok tot_carbon
  | (c, k) :: items' =>
      match getitem db c with
      | Raise e => Raise e
      | Ok col =>
          let term := Z.mul k <$> col in
          match tot_carbon with
          | None => intensity_loop db items' (Some term)
          | Some tot => intensity_loop db items' (Some (zip_with Z.add tot term))
          end
      end
  end.

Definition FrameRef := positive.

(** The data frames of the program, by reference: the argument of
    [calculateAVGCarbonIntensity] is a reference its caller shares. *)
Abbreviation Heap := (gmap FrameRef (DataFrame Z)).

Definition calculateAVGCarbonIntensity (db : FrameRef) (h : Heap)
    : Heap * result (DataFrame float) :=
  match h !! db with
  | None => (h, Raise (KeyError ""))  (* no such object: not a Python state *)
  | Some d =>
      let d := clip_negative d in
      let h := <[db := d]> h in
      let sum_db := sum_axis1 d in
      match intensity_loop d carbon_intensity None with
      | Raise e => (h, Raise e)
      | Ok None => (h, Raise AttributeError)
      | Ok (Some tot_carbon) =>
          let tot_carbon := zip_with true_divide tot_carbon sum_db in
          (h, Ok {| index := index d; columns := ["carbon_intensity"];
                    values := (fun x => [x]) <$> tot_carbon |})
      end
  end.

(** ** Regular expressions of the loader

    The two patterns use literals, [.], character classes, groups and the
    quantifiers [+?], [+] and [*] on single characters; [search] is the
    backtracking search of Python's [re.search] for these.  Characters are
    bytes: series ids are ASCII. *)

Inductive atom :=
  | Lit (c : ascii)
  | AnyChar                                 (* [.]: anything but a newline *)
  | OneOf (ranges : list (ascii * ascii)).  (* a class of ranges *)

Inductive quantifier := Once | LazyPlus | GreedyPlus | GreedyStar.

Inductive token :=
  | Tok (a : atom) (q : quantifier)
  | GroupOpen
  | GroupClose.

Definition newline : ascii := ascii_of_nat 10.

Definition accepts (a : atom) (c : ascii) : bool :=
  match a with
  | Lit c' => bool_decide (c' = c)
  | AnyChar => negb (bool_decide (c = newline))
  | OneOf ranges =>
      existsb (fun r => (N_of_ascii r.1 <=? N_of_ascii c)%N && (N_of_ascii c <=? N_of_ascii r.2)%N)
              ranges
  end.

(** Groups closed so far, and the text of the group being read. *)
Record Capture := { closed : list string; opened : option string }.

Definition consume (c : ascii) (st : Capture) : Capture :=
  {| closed := closed st;
     opened := (fun g => g +:+ String c "") <$> opened st |}.

(** [a*?] before the rest of the pattern [k]: the rest is tried first. *)
Fixpoint lazy_star (a : atom) (k : string -> Capture -> option (list string))
    (s : string) (st : Capture) : option (list string) :=
  match k s st with
  | Some m => Some m
  | None =>
      match s with
      | String c s' => if accepts a c then lazy_star a k s' (consume c st) else None
      | EmptyString => None
      end
  end.

(** [a*] before the rest of the pattern [k]: the longest run is tried first. *)
Fixpoint greedy_star (a : atom) (k : string -> Capture -> option (list string))
    (s : string) (st : Capture) : option (list string) :=
  match s with
  | String c s' =>
      if accepts a c then
        match greedy_star a k s' (consume c st) with
        | Some m => Some m
        | None => k s st
        end
      else k s st
  | EmptyString => k s st
  end.

Definition at_least_one (a : atom)
    (star : string -> Capture -> option (list string))
    (s : string) (st : Capture) : option (list string) :=
  match s with
  | String c s' => if accepts a c then star s' (consume c st) else None
  | EmptyString => None
  end.

(** A match of the whole pattern starting at the head of [s]. *)
Fixpoint match_here (re : list token) (s : string) (st : Capture)
    : option (list string) :=
  match re with
  | [] => Some (closed st)
  | GroupOpen :: re' => match_here re' s {| closed := closed st; opened := Some "" |}
  | GroupClose :: re' =>
      match_here re' s {| closed := closed st ++ [default "" (opened st)]; opened := None |}
  | Tok a Once :: re' => at_least_one a (match_here re') s st
  | Tok a LazyPlus :: re' => at_least_one a (lazy_star a (match_here re')) s st
  | Tok a GreedyPlus :: re' => at_least_one a (greedy_star a (match_here re')) s st
  | Tok a GreedyStar :: re' => greedy_star a (match_here re') s st
  end.

(** [re.search(re, s)]: the first position with a match; the result lists
    the groups. *)
Fixpoint search (re : list token) (s : string) : option (list string) :=
  match match_here re s {| closed := []; opened := None |} with
  | Some m => Some m
  | None =>
      match s with
      | String _ s' => search re s'
      | EmptyString => None
      end
  end.

(** [m.group(i)] for [i >= 1] *)
Definition group (m : list string) (i : nat) : string :=
  default "" (m !! (i - 1)%nat).

Definition lit (s : string) : list token :=
  (fun c => Tok (Lit c) Once) <$> list_ascii_of_string s.

Definition A_Z : ascii * ascii := ("A"%char, "Z"%char).
Definition only (c : ascii) : ascii * ascii := (c, c).

(** The pattern of line 85: EBA, any character, a group holding a lazy
    run of one or more characters, and a dash. *)
Definition re_ba : list token :=
  lit "EBA" ++ [Tok AnyChar Once; GroupOpen; Tok AnyChar LazyPlus; GroupClose] ++ lit "-".

(** The pattern of line 92: EBA, any character, CISO and a dash; a first
    group holding one or more of A-Z and dash, then a dot; a second group
    holding any number of A-Z, dot and dash. *)
Definition re_ts : list token :=
  lit "EBA" ++ [Tok AnyChar Once] ++ lit "CISO-" ++
  [GroupOpen; Tok (OneOf [A_Z; only "-"%char]) GreedyPlus; Tok (Lit "."%char) Once; GroupClose;
   GroupOpen; Tok (OneOf [A_Z; only "."%char; only "-"%char]) GreedyStar; GroupClose].

(** ** Record loader *)

(** The module's globals. *)
Record Globals := {
  eba_json : option (list RawRecord);
  ba_list : list string;
  ts_list : list string
}.

(** The globals when the module has just been imported. *)
Definition module_globals : Globals :=
  {| eba_json := None; ba_list := []; ts_list := [] |}.

(** [Series.unique()]: the distinct values, in order of first appearance. *)
Fixpoint unique_from {A} `{EqDecision A} (seen l : list A) : list A :=
  match l with
  | [] => []
  | x :: l' =>
      if bool_decide (x ∈ seen) then unique_from seen l'
      else x :: unique_from (x :: seen) l'
  end.

Definition unique {A} `{EqDecision A} (l : list A) : list A := unique_from [] l.

(** [list(filter(lambda x: type(x) == str, ..))] *)
Definition strings_only (l : list (option string)) : list string := omap id l.

(** The loop over [series_id_unique].  An exception leaves the globals as
    the turns before it made them. *)
Fixpoint catalog_loop (series_id_unique : list string) (g : Globals) (ba_num : Z)
    : Globals * result Z :=
  match series_id_unique with
  | [] => (g, Ok ba_num)
  | sid :: rest =>
      match search re_ba sid with
      | None => (g, Raise AttributeError)
      | Some m =>
          let ba_this := group m 1 in
          let '(g, ba_num) :=
            if bool_decide (ba_this ∈ ba_list g) then (g, ba_num)
            else ({| eba_json := eba_json g; ba_list := ba_list g ++ [ba_this];
                     ts_list := ts_list g |}, ba_num + 1) in
          if bool_decide (ba_this = "CISO") then
            match search re_ts sid with
            | None => (g, Raise AttributeError)
            | Some m =>
                catalog_loop rest
                  {| eba_json := eba_json g; ba_list := ba_list g;
                     ts_list := ts_list g ++ [group m 2] |} ba_num
            end
          else catalog_loop rest g ba_num
      end
  end.

(** [lines] are the lines of [EBA.txt] as [pd.read_json(.., lines=True)]
    reads them. *)
Definition prepareEIAData (lines : list RawRecord) (g : Globals)
    : Globals * result (list RawRecord * list string * list string) :=
  let g := {| eba_json := Some lines; ba_list := ba_list g; ts_list := ts_list g |} in
  let series_id_unique := unique (series_id <$> lines) in
  let series_id_unique := strings_only series_id_unique in
  match catalog_loop series_id_unique g 0 with
  | (g, Raise e) => (g, Raise e)
  | (g, Ok _) => (g, Ok (lines, ba_list g, ts_list g))
  end.

(** The string series ids of a file, once each. *)
Definition string_ids (lines : list RawRecord) : list string :=
  strings_only (unique (series_id <$> lines)).

(** What the loader takes from one id for the catalog of authorities. *)
Definition ba_of (sid : string) : option string :=
  (fun m => group m 1) <$> search re_ba sid.

(** What it takes from an id of CISO for the catalog of series. *)
Definition ts_of (sid : string) : option string :=
  (fun m => group m 2) <$> search re_ts sid.

(** ** Sample records *)

(** Hourly pairs from [d0] 00:00 to [d1] 00:00, labelled UTC, all of
    value [v]. *)
Definition hourly (d0 d1 : Z) (v : Z) : list (Timestamp * Z) :=
  (fun t => ({| wall := t; tzinfo := Some UTC |}, v)) <$> date_range d0 d1.

(** The record of the end-to-end example. *)
Definition nuc_record : RawRecord :=
  {| series_id := Some "EBA.TEST-ALL.NG.NUC.H";
     start := midnight_utc (civil 2020 1 1);
     end_ := midnight_utc (civil 2020 1 3);
     data := hourly (civil 2020 1 1) (civil 2020 1 3) 100 |}.

(** A line that only carries a series id. *)
Definition id_line (sid : string) : RawRecord :=
  {| series_id := Some sid; start := midnight_utc 0; end_ := midnight_utc 0; data := [] |}.

(** A record of wind generation whose data give the first hour of
    2020-01-01 twice. *)
Definition wnd_twice : RawRecord :=
  {| series_id := Some "EBA.TEST-ALL.NG.WND.H";
     start := midnight_utc (civil 2020 1 1);
     end_ := midnight_utc (civil 2020 1 3);
     data := [(midnight_utc (civil 2020 1 1), 1); (midnight_utc (civil 2020 1 1), 2)] |}.

(** ** Naive timestamps and their UTC-labelled counterparts *)



(** The record of the end-to-end example with its timestamps written
    without a zone. *)
Definition nuc_record_naive : RawRecord :=
  {| series_id := Some "EBA.TEST-ALL.NG.NUC.H";
     start := midnight_utc (civil 2020 1 1);
     end_ := midnight_utc (civil 2020 1 3);
     data := (fun t => ({| wall := t; tzinfo := None |}, 100))
             <$> date_range (civil 2020 1 1) (civil 2020 1 3) |}.

(** ** Row quantities of the aggregator *)

Definition at_column (row : list Z) (j : nat) : Z := default 0 (row !! j).

(** The weighted emissions of one row of a table whose columns are those
    of [ng_list], summed in the order of the loop. *)
Definition emissions_row (row : list Z) : Z :=
  11 * at_column row 0 + 41 * at_column row 1 + 24 * at_column row 2
  + 650 * at_column row 3 + 490 * at_column row 4 + 820 * at_column row 5
  + 12 * at_column row 6 + 230 * at_column row 7.

(** The carbon intensity of one row, after the negative cells are set to
    zero. *)
Definition intensity_row (row : list Z) : float :=
  true_divide (emissions_row (clip_cell <$> row)) (sum_row (clip_cell <$> row)).

(** The table [db] with the cell of row [i], column [j] set to [x]. *)
Definition set_cell (db : DataFrame Z) (i j : nat) (x : Z) : DataFrame Z :=
  {| index := index db; columns := columns db;
     values := alter (fun row => <[j := x]> row) i (values db) |}.

(** The tables of the end-to-end example. *)
Definition nuc_table : DataFrame Z :=
  {| index := date_range (civil 2020 1 1) (civil 2020 1 2);
     columns := ng_list;
     values := replicate 25 [0; 0; 0; 0; 0; 0; 100; 0] |}.

Definition nuc_intensity : DataFrame float :=
  {| index := date_range (civil 2020 1 1) (civil 2020 1 2);
     columns := ["carbon_intensity"];
     values := replicate 25 [Fin (12 # 1)] |}.

(** ** The catalog of authorities in the words of the specification *)

(** The text before the next dash, when there is a dash. *)
Fixpoint up_to_dash (s : string) : option string :=
  match s with
  | EmptyString => None
  | String c s' =>
      if bool_decide (c = "-"%char) then Some ""
      else String c <$> up_to_dash s'
  end.

(** Following the words of the specification: the substring strictly
    between the literal prefix EBA. and the next dash. *)
Definition spec_ba_between (sid : string) : option string :=
  match sid with
  | String "E" (String "B" (String "A" (String "." rest))) => up_to_dash rest
  | _ => None
  end.


(** A code of authority as the record format has them: not empty and on
    one line. *)
Definition plain_code (ba : string) : bool :=
  negb (bool_decide (ba = "")) &&
  forallb (fun c => negb (bool_decide (c = newline))) (list_ascii_of_string ba).


(** An id whose series the loader can catalog: when the id is one of
    CISO, the second pattern has a match. *)
Definition ts_readable (sid : string) : Prop :=
  ba_of sid = Some "CISO" -> is_Some (ts_of sid).

(** What is left of the first pattern after its group: the dash. *)
Definition after_group : string -> Capture -> option (list string) :=
  match_here [GroupClose; Tok (Lit "-"%char) Once].

(** The ids the loader takes for ids of CISO. *)
Definition is_ciso (sid : string) : bool := bool_decide (ba_of sid = Some "CISO").

(** ** Records and tables compared *)

(** The same record with its data pairs in another order. *)
Definition same_but_order (r r' : RawRecord) : Prop :=
  series_id r' = series_id r /\ start r' = start r /\ end_ r' = end_ r /\
  data r' ≡ₚ data r.

(** The same record with other declared bounds. *)
Definition same_but_bounds (r r' : RawRecord) : Prop :=
  series_id r' = series_id r /\ data r' = data r.


(** The record [extractBARange] uses for an energy type, if any: the first
    of the frame that carries the series. *)
Definition used_record (eba_json : list RawRecord) (ba_idx ng_idx : string)
    : option RawRecord :=
  head (select_series eba_json (series_name ba_idx ng_idx)).


(** The two classes of the second pattern, and what is left of the
    pattern after the run of its first group and after that of its
    second. *)
Definition upper_or_dash : atom := OneOf [A_Z; only "-"%char].
Definition upper_dot_dash : atom := OneOf [A_Z; only "."%char; only "-"%char].

Definition after_second_run : string -> Capture -> option (list string) :=
  match_here [GroupClose].

Definition after_first_run : string -> Capture -> option (list string) :=
  match_here [Tok (Lit "."%char) Once; GroupClose; GroupOpen;
              Tok upper_dot_dash GreedyStar; GroupClose].

(** A string made of characters of a class. *)
Definition all_in (a : atom) (s : string) : bool :=
  forallb (accepts a) (list_ascii_of_string s).

(** A greedy run ends where the string ends or its next character is
    outside the class. *)
Definition stops (a : atom) (s : string) : bool :=
  match s with
  | EmptyString => true
  | String c _ => negb (accepts a c)
  end.

(** * Properties *)

(** ** The output monad *)

Lemma out_bind_Ok {A B} (m : Out A) (f : A -> Out B) w b :
  out_bind m f = (w, Ok b) ->
  exists w1 a w2, m = (w1, Ok a) /\ f a = (w2, Ok b) /\ w = w1 ++ w2.
Proof.
  unfold out_bind. destruct m as [w1 [a|e]]; [|discriminate].
  destruct (f a) as [w2 r] eqn:Hf. intros [= <- ->]. eauto 6.
Qed.



Lemma print_when_Ok b p : exists w, print_when b p = (w, Ok tt).
Proof. destruct b; simpl; eauto. Qed.

(** ** The hourly index *)

Lemma length_date_range d0 d1 :
  length (date_range d0 d1) = Z.to_nat ((d1 - d0) * 24 + 1).
Proof. unfold date_range. by rewrite length_fmap, length_seqZ. Qed.

Lemma lookup_date_range d0 d1 k :
  0 <= k <= (d1 - d0) * 24 ->
  date_range d0 d1 !! Z.to_nat k = Some (d0 * day_ns + k * hour_ns).
Proof.
  intros Hk. unfold date_range. rewrite list_lookup_fmap.
  rewrite (lookup_seqZ_lt 0 _ (Z.to_nat k)) by lia. simpl.
  by rewrite Z2Nat.id by lia.
Qed.

(** ** One column *)

Lemma length_reindex df idx fill power :
  reindex df idx fill = Ok power -> length power = length idx.
Proof.
  unfold reindex. case_bool_decide; [|discriminate].
  intros [= <-]. by rewrite length_fmap.
Qed.




Lemma fuel_column_length recs ba start_idx end_idx idx ng w c :
  fuel_column recs ba start_idx end_idx idx ng = (w, Ok c) ->
  length c = length idx.
Proof.
  unfold fuel_column.
  destruct (select_series recs (series_name ba ng)) as [|r rs].
  - intros [= <- <-]. by rewrite length_replicate.
  - intros H.
    apply out_bind_Ok in H as (w1 & [] & w2 & _ & H & _).
    apply out_bind_Ok in H as (w3 & [] & w4 & _ & H & _).
    destruct (reindex _ idx 0) as [power|e] eqn:Hre; [|discriminate].
    injection H as <- <-. by eapply length_reindex.
Qed.


(** ** The loop and the transposition *)

Lemma fuel_loop_Ok column fuels w cols :
  fuel_loop column fuels = (w, Ok cols) ->
  Forall2 (fun ng c => exists w', column ng = (w', Ok c)) fuels cols.
Proof.
  revert w cols. induction fuels as [|ng fuels IH]; intros w cols; simpl.
  - intros [= <- <-]. constructor.
  - intros H.
    apply out_bind_Ok in H as (w1 & c & w2 & Hc & H & _).
    apply out_bind_Ok in H as (w3 & cs & w4 & Hcs & H & _).
    injection H as <- <-. constructor; eauto.
Qed.


Lemma length_transpose n cols :
  Forall (fun c => length c = n) cols -> length (transpose n cols) = n.
Proof.
  induction 1 as [|c cols Hc _ IH]; simpl.
  - by rewrite length_replicate.
  - rewrite length_zip_with. lia.
Qed.


Lemma transpose_cell n cols i row j c :
  transpose n cols !! i = Some row -> cols !! j = Some c -> row !! j = c !! i.
Proof.
  revert row j. induction cols as [|c' cols IH]; intros row j; [done|].
  simpl. rewrite lookup_zip_with.
  destruct (c' !! i) as [x|] eqn:Hx; [|done]. simpl.
  destruct (transpose n cols !! i) as [row'|] eqn:Hrow'; [|done]. simpl.
  intros [= <-]. destruct j as [|j]; simpl.
  - by intros [= <-].
  - by apply IH.
Qed.

Lemma extractBARange_Ok recs ba d0 d1 w t :
  extractBARange recs ba d0 d1 = (w, Ok t) ->
  exists cols,
    Forall2 (fun ng c => exists w',
      fuel_column recs ba (midnight_utc d0) (midnight_utc d1) (date_range d0 d1) ng = (w', Ok c))
      ng_list cols /\
    t = {| index := date_range d0 d1; columns := ng_list;
           values := transpose (length (date_range d0 d1)) cols |}.
Proof.
  unfold extractBARange. intros H.
  apply out_bind_Ok in H as (w1 & cols & w2 & Hloop & H & _).
  injection H as <- <-. exists cols. split; [|done].
  by eapply fuel_loop_Ok.
Qed.


Lemma extractBARange_columns_length recs ba d0 d1 cols :
  Forall2 (fun ng c => exists w',
    fuel_column recs ba (midnight_utc d0) (midnight_utc d1) (date_range d0 d1) ng = (w', Ok c))
    ng_list cols ->
  Forall (fun c => length c = length (date_range d0 d1)) cols.
Proof.
  intros Hcols. apply Forall_forall. intros c Hc.
  apply list_elem_of_lookup in Hc as [j Hj].
  destruct (Forall2_lookup_r _ _ _ _ _ Hcols Hj) as (ng & _ & w' & Hng).
  by eapply fuel_column_length.
Qed.

(** ** Shape of the extracted table *)



(** ** A series that is missing *)





(** ** Naive and UTC-labelled timestamps *)








Lemma fuel_loop_ext column column' fuels :
  (forall ng, column ng = column' ng) -> fuel_loop column fuels = fuel_loop column' fuels.
Proof.
  intros H. induction fuels as [|ng fuels IH]; [done|].
  simpl. by rewrite H, IH.
Qed.



(** ** The aggregator on a table of the eight energy types *)

Lemma zip_with_fmap_same {A B C D} (f : B -> C -> D) (g : A -> B) (k : A -> C) (l : list A) :
  zip_with f (g <$> l) (k <$> l) = (fun x => f (g x) (k x)) <$> l.
Proof. induction l as [|x l IH]; [done|]. csimpl. by rewrite IH. Qed.

Lemma getitem_ng_list db j c :
  columns db = ng_list -> ng_list !! j = Some c ->
  getitem db c = Ok ((fun row => at_column row j) <$> values db).
Proof.
  intros Hcols Hj. unfold getitem. rewrite Hcols.
  assert (Hpos : position c ng_list = Some j).
  { unfold ng_list in *.
    do 8 (destruct j as [|j]; [injection Hj as <-; reflexivity|]). discriminate. }
  by rewrite Hpos.
Qed.

Lemma intensity_loop_ng_list db :
  columns db = ng_list ->
  intensity_loop db carbon_intensity None = Ok (Some (emissions_row <$> values db)).
Proof.
  intros Hcols. unfold carbon_intensity. cbn [intensity_loop].
  rewrite (getitem_ng_list db 0 "WND"), (getitem_ng_list db 1 "SUN"),
    (getitem_ng_list db 2 "WAT"), (getitem_ng_list db 3 "OIL"),
    (getitem_ng_list db 4 "NG"), (getitem_ng_list db 5 "COL"),
    (getitem_ng_list db 6 "NUC"), (getitem_ng_list db 7 "OTH") by done.
  rewrite <- !list_fmap_compose. rewrite !zip_with_fmap_same. reflexivity.
Qed.

Lemma calculate_ng_list h l db :
  h !! l = Some db -> columns db = ng_list ->
  calculateAVGCarbonIntensity l h
  = (<[l := clip_negative db]> h,
     Ok {| index := index db; columns := ["carbon_intensity"];
           values := (fun row => [intensity_row row]) <$> values db |}).
Proof.
  intros Hl Hcols. unfold calculateAVGCarbonIntensity. rewrite Hl.
  rewrite intensity_loop_ng_list by done.
  unfold sum_axis1. rewrite zip_with_fmap_same. cbn [clip_negative values index].
  rewrite <- !list_fmap_compose. reflexivity.
Qed.

Lemma calculate_heap h l db :
  h !! l = Some db -> (calculateAVGCarbonIntensity l h).1 = <[l := clip_negative db]> h.
Proof.
  intros Hl. unfold calculateAVGCarbonIntensity. rewrite Hl.
  destruct (intensity_loop _ _ _) as [[tot|]|e]; reflexivity.
Qed.

Lemma clip_cell_nonpositive x : x <= 0 -> clip_cell x = 0.
Proof. unfold clip_cell. destruct (Z.ltb_spec x 0); lia. Qed.

Lemma clip_cell_nonnegative x : 0 <= x -> clip_cell x = x.
Proof. unfold clip_cell. destruct (Z.ltb_spec x 0); lia. Qed.

Lemma clip_row_nonpositive row :
  Forall (fun x => x <= 0) row -> clip_cell <$> row = replicate (length row) 0.
Proof.
  induction 1 as [|x row Hx _ IH]; [done|].
  csimpl. by rewrite IH, clip_cell_nonpositive.
Qed.

Lemma sum_row_zeros n : sum_row (replicate n 0) = 0.
Proof. unfold sum_row. induction n as [|n IH]; [done|]. simpl. by rewrite IH. Qed.

Lemma at_column_zeros n j : at_column (replicate n 0) j = 0.
Proof.
  unfold at_column. destruct (replicate n 0 !! j) as [x|] eqn:H; [|done].
  by apply lookup_replicate in H as [-> _].
Qed.

Lemma emissions_row_zeros n : emissions_row (replicate n 0) = 0.
Proof. unfold emissions_row. by rewrite !at_column_zeros. Qed.

Lemma intensity_row_nonpositive row :
  Forall (fun x => x <= 0) row -> intensity_row row = NaN.
Proof.
  intros H. unfold intensity_row. rewrite clip_row_nonpositive by done.
  by rewrite emissions_row_zeros, sum_row_zeros.
Qed.

Lemma cell_clip_negative db i j :
  cell (clip_negative db) i j = clip_cell <$> cell db i j.
Proof.
  unfold cell, clip_negative. cbn [values]. rewrite list_lookup_fmap.
  destruct (values db !! i) as [row|]; [|done]. cbn. apply list_lookup_fmap.
Qed.

Lemma clip_row_insert_zero (row : list Z) j v :
  row !! j = Some v -> v < 0 -> clip_cell <$> <[j := 0]> row = clip_cell <$> row.
Proof.
  intros Hj Hv. rewrite list_fmap_insert. apply list_insert_id.
  rewrite list_lookup_fmap, Hj. cbn. f_equal.
  rewrite clip_cell_nonpositive by lia. reflexivity.
Qed.

Lemma clip_negative_set_cell db i j v :
  cell db i j = Some v -> v < 0 -> clip_negative (set_cell db i j 0) = clip_negative db.
Proof.
  unfold cell. intros Hc Hv.
  destruct (values db !! i) as [row|] eqn:Hrow; [|done]. cbn in Hc.
  unfold clip_negative, set_cell. cbn [index columns values]. f_equal.
  apply list_eq. intros k. rewrite !list_lookup_fmap.
  destruct (decide (i = k)) as [<-|Hne].
  - rewrite list_lookup_alter_eq, Hrow. cbn. f_equal. by eapply clip_row_insert_zero.
  - by rewrite list_lookup_alter_ne.
Qed.

(** ** Division by zero *)

(** C3: on a table of the eight energy types, [calculateAVGCarbonIntensity]
    raises nothing, and in every row whose cells are all [<= 0] its result
    is not-a-number. *)
Theorem zero_generation_is_nan (h : Heap) l db :
  h !! l = Some db -> columns db = ng_list ->
  exists out,
    (calculateAVGCarbonIntensity l h).2 = Ok out /\
    index out = index db /\ columns out = ["carbon_intensity"] /\
    length (values out) = length (values db) /\
    forall i row, values db !! i = Some row -> Forall (fun x => x <= 0) row ->
      values out !! i = Some [NaN].
Proof.
  intros Hl Hcols. rewrite (calculate_ng_list h l db) by done.
  eexists. split; [reflexivity|]. cbn [index columns values].
  split_and!; [done|done|by rewrite length_fmap|].
  intros i row Hrow Hneg. rewrite list_lookup_fmap, Hrow. cbn.
  by rewrite intensity_row_nonpositive.
Qed.

Lemma zero_generation_is_nan_witness :
  exists out,
    (calculateAVGCarbonIntensity 1%positive
       {[1%positive := set_cell (set_cell nuc_table 0 6 (-5)) 1 6 0]}).2 = Ok out /\
    values out !! 0%nat = Some [NaN] /\ values out !! 1%nat = Some [NaN].
Proof.
  set (db := set_cell (set_cell nuc_table 0 6 (-5)) 1 6 0).
  destruct (zero_generation_is_nan {[1%positive := db]} 1%positive db)
    as (out & Hout & _ & _ & _ & Hnan).
  { apply lookup_singleton_eq. }
  { reflexivity. }
  exists out. split; [exact Hout|]. split.
  - apply (Hnan 0%nat [0; 0; 0; 0; 0; 0; -5; 0]); [reflexivity|].
    repeat constructor; lia.
  - apply (Hnan 1%nat [0; 0; 0; 0; 0; 0; 0; 0]); [reflexivity|].
    repeat constructor; lia.
Defined.

(** ** Negative cells *)

(** C4: on a table of the eight energy types, a negative cell counts as
    zero: it adds nothing to the total generation of its row nor to its
    weighted emissions, and the call gives what it gives on the table with
    that cell set to 0. *)
Theorem negative_cell_counts_as_zero (h : Heap) l db i j row v :
  h !! l = Some db -> columns db = ng_list ->
  values db !! i = Some row -> row !! j = Some v -> v < 0 ->
  sum_row (clip_cell <$> row) = sum_row (clip_cell <$> <[j := 0]> row) /\
  emissions_row (clip_cell <$> row) = emissions_row (clip_cell <$> <[j := 0]> row) /\
  (exists out, (calculateAVGCarbonIntensity l h).2 = Ok out /\
     values out !! i = Some [intensity_row (<[j := 0]> row)]) /\
  calculateAVGCarbonIntensity l (<[l := set_cell db i j 0]> h)
    = calculateAVGCarbonIntensity l h.
Proof.
  intros Hl Hcols Hrow Hj Hv.
  pose proof (clip_row_insert_zero row j v Hj Hv) as Hclip.
  split_and!; [by rewrite Hclip|by rewrite Hclip| |].
  - rewrite (calculate_ng_list h l db) by done.
    eexists. split; [reflexivity|]. cbn [values].
    rewrite list_lookup_fmap, Hrow. cbn. unfold intensity_row. by rewrite Hclip.
  - assert (Hcell : cell db i j = Some v) by (unfold cell; by rewrite Hrow).
    rewrite (calculate_ng_list h l db) by done.
    rewrite (calculate_ng_list _ l (set_cell db i j 0))
      by (try apply lookup_insert_eq; done).
    rewrite insert_insert_eq, (clip_negative_set_cell db i j v) by done.
    f_equal. f_equal. cbn [index set_cell values]. f_equal.
    apply list_eq. intros k. rewrite !list_lookup_fmap.
    destruct (decide (i = k)) as [<-|Hne].
    + rewrite list_lookup_alter_eq, Hrow. cbn. unfold intensity_row. by rewrite Hclip.
    + by rewrite list_lookup_alter_ne.
Qed.

Lemma negative_cell_counts_as_zero_witness :
  exists out,
    (calculateAVGCarbonIntensity 1%positive
       {[1%positive := set_cell nuc_table 0 0 (-7)]}).2 = Ok out /\
    values out !! 0%nat = Some [Fin (12 # 1)].
Proof.
  set (db := set_cell nuc_table 0 0 (-7)).
  assert (Hv : -7 < 0) by lia.
  destruct (negative_cell_counts_as_zero {[1%positive := db]} 1%positive db
              0 0 [-7; 0; 0; 0; 0; 0; 100; 0] (-7))
    as (_ & _ & (out & Hout & Hrow) & _);
    [apply lookup_singleton_eq|reflexivity|reflexivity|reflexivity|exact Hv|].
  exists out. split; [exact Hout|exact Hrow].
Defined.

(** ** Clipping in place *)

(** C9: [calculateAVGCarbonIntensity] changes the table its caller passed:
    after the call, whether it returned or raised, the caller's table has 0
    in every cell that was negative, so it is no longer the table it was;
    its index, its column labels and its other cells are as before, and no
    other table of the program changes. *)
Theorem calculate_clips_in_place (h : Heap) l db i j v :
  h !! l = Some db -> cell db i j = Some v -> v < 0 ->
  exists db',
    (calculateAVGCarbonIntensity l h).1 !! l = Some db' /\
    db' <> db /\
    cell db' i j = Some 0 /\
    index db' = index db /\ columns db' = columns db /\
    length (values db') = length (values db) /\
    (forall i' j' w, cell db i' j' = Some w -> w < 0 -> cell db' i' j' = Some 0) /\
    (forall i' j' w, cell db i' j' = Some w -> 0 <= w -> cell db' i' j' = Some w) /\
    (forall i' j', cell db i' j' = None -> cell db' i' j' = None) /\
    (forall l', l' <> l -> (calculateAVGCarbonIntensity l h).1 !! l' = h !! l').
Proof.
  intros Hl Hc Hv. exists (clip_negative db). rewrite (calculate_heap h l db) by done.
  assert (Hneg : forall i' j' w, cell db i' j' = Some w -> w < 0 ->
            cell (clip_negative db) i' j' = Some 0).
  { intros i' j' w Hw Hlt. rewrite cell_clip_negative, Hw. cbn.
    by rewrite clip_cell_nonpositive by lia. }
  split_and!.
  - apply lookup_insert_eq.
  - intros Heq. specialize (Hneg i j v Hc Hv). rewrite Heq, Hc in Hneg.
    injection Hneg as ->. lia.
  - by eapply Hneg.
  - done.
  - done.
  - cbn. by rewrite length_fmap.
  - exact Hneg.
  - intros i' j' w Hw Hge. rewrite cell_clip_negative, Hw. cbn.
    by rewrite clip_cell_nonnegative.
  - intros i' j' Hnone. by rewrite cell_clip_negative, Hnone.
  - intros l' Hne. by rewrite lookup_insert_ne.
Qed.

Lemma calculate_clips_in_place_witness :
  exists db',
    (calculateAVGCarbonIntensity 1%positive
       {[1%positive := set_cell nuc_table 0 0 (-7)]}).1 !! 1%positive = Some db' /\
    cell db' 0 0 = Some 0 /\ cell db' 0 6 = Some 100.
Proof.
  set (db := set_cell nuc_table 0 0 (-7)).
  assert (Hv : -7 < 0) by lia.
  destruct (calculate_clips_in_place {[1%positive := db]} 1%positive db 0 0 (-7))
    as (db' & Hl & _ & H0 & _ & _ & _ & _ & Hsame & _);
    [apply lookup_singleton_eq|reflexivity|exact Hv|].
  exists db'. split; [exact Hl|]. split; [exact H0|].
  apply Hsame; [reflexivity|lia].
Defined.

(** ** The end-to-end example *)

(** C2: with the one record of series EBA.TEST-ALL.NG.NUC.H, from
    2020-01-01 to 2020-01-03, hourly and always 100, the range 2020-01-01 to
    2020-01-02 of authority TEST gives 25 rows with 100 under NUC and 0
    under the seven other columns, and the carbon intensity of that table is
    12 in every row. *)
Theorem end_to_end_example :
  prepareEIAData [nuc_record] module_globals
    = ({| eba_json := Some [nuc_record]; ba_list := ["TEST"]; ts_list := [] |},
       Ok ([nuc_record], ["TEST"], [])) /\
  extractBARange [nuc_record] "TEST" (civil 2020 1 1) (civil 2020 1 2) = ([], Ok nuc_table) /\
  length (values nuc_table) = 25%nat /\
  columns nuc_table = ["WND"; "SUN"; "WAT"; "OIL"; "NG"; "COL"; "NUC"; "OTH"] /\
  (forall i row, values nuc_table !! i = Some row -> row = [0; 0; 0; 0; 0; 0; 100; 0]) /\
  (calculateAVGCarbonIntensity 1%positive {[1%positive := nuc_table]}).2 = Ok nuc_intensity /\
  length (values nuc_intensity) = 25%nat /\
  (forall i row, values nuc_intensity !! i = Some row -> row = [Fin (12 # 1)]).
Proof.
  split_and!.
  - vm_compute. reflexivity.
  - vm_compute. reflexivity.
  - reflexivity.
  - reflexivity.
  - intros i row H. by apply lookup_replicate in H as [-> _].
  - rewrite (calculate_ng_list _ _ nuc_table) by (try apply lookup_singleton_eq; done).
    cbn [snd]. vm_compute. reflexivity.
  - reflexivity.
  - intros i row H. by apply lookup_replicate in H as [-> _].
Qed.

(** * The loader *)

(** ** The pattern of authorities *)

Lemma after_group_cons c s st :
  after_group (String c s) st
  = if bool_decide ("-"%char = c) then Some (closed st ++ [default "" (opened st)]) else None.
Proof. unfold after_group. cbn. destruct (bool_decide _); reflexivity. Qed.

Lemma append_snoc (a : string) c b : (a +:+ String c "") +:+ b = a +:+ String c b.
Proof.
  induction a as [|x a IH]; [done|].
  change (String x ((a +:+ String c "") +:+ b) = String x (a +:+ String c b)).
  by rewrite IH.
Qed.

Lemma append_empty (a : string) : a +:+ "" = a.
Proof.
  induction a as [|x a IH]; [done|].
  change (String x (a +:+ "") = String x a). by rewrite IH.
Qed.

Lemma lazy_star_up_to_dash s ba cl acc :
  up_to_dash s = Some ba ->
  forallb (fun c => negb (bool_decide (c = newline))) (list_ascii_of_string ba) = true ->
  lazy_star AnyChar after_group s {| closed := cl; opened := Some acc |}
  = Some (cl ++ [acc +:+ ba]).
Proof.
  revert ba acc. induction s as [|c s IH]; intros ba acc; [done|].
  cbn [up_to_dash lazy_star]. rewrite after_group_cons.
  case_bool_decide as Hc.
  - intros [= <-] _. subst c. rewrite bool_decide_eq_true_2 by done.
    cbn. by rewrite append_empty.
  - rewrite bool_decide_eq_false_2 by congruence.
    destruct (up_to_dash s) as [ba'|] eqn:Hs; [|done].
    intros [= <-]. cbn [list_ascii_of_string forallb].
    intros [Hnl Hrest]%andb_prop. cbn [accepts]. rewrite Hnl.
    unfold consume. cbn [closed opened fmap option_fmap option_map].
    rewrite (IH ba') by done. by rewrite append_snoc.
Qed.

Lemma match_here_re_ba_format rest ba :
  up_to_dash rest = Some ba -> plain_code ba = true ->
  match_here re_ba (String "E" (String "B" (String "A" (String "." rest))))
    {| closed := []; opened := None |} = Some [ba].
Proof.
  intros Hrest [Hne Hnl]%andb_prop.
  apply negb_true_iff, bool_decide_eq_false in Hne.
  destruct rest as [|c rest]; [done|]. cbn [up_to_dash] in Hrest.
  destruct (bool_decide (c = "-"%char)).
  { by injection Hrest as <-. }
  destruct (up_to_dash rest) as [ba'|] eqn:Hrest'; [|done].
  injection Hrest as <-. cbn [list_ascii_of_string forallb] in Hnl.
  apply andb_prop in Hnl as [Hc' Hnl].
  change (at_least_one AnyChar (lazy_star AnyChar after_group) (String c rest)
            {| closed := []; opened := Some "" |} = Some [String c ba']).
  cbn [at_least_one accepts]. rewrite Hc'.
  unfold consume. cbn [closed opened fmap option_fmap option_map].
  by rewrite (lazy_star_up_to_dash rest ba').
Qed.

Lemma search_here re s m :
  match_here re s {| closed := []; opened := None |} = Some m -> search re s = Some m.
Proof. intros H. destruct s; cbn [search]; by rewrite H. Qed.

Lemma spec_ba_between_prefix sid ba :
  spec_ba_between sid = Some ba ->
  exists rest, sid = String "E" (String "B" (String "A" (String "." rest))) /\
               up_to_dash rest = Some ba.
Proof.
  unfold spec_ba_between. intros H.
  repeat match type of H with
  | match ?s with _ => _ end = _ => destruct s; try discriminate
  | (if ?b then _ else _) = _ => destruct b; try discriminate
  end.
  eauto.
Qed.

Lemma ba_of_format sid ba :
  spec_ba_between sid = Some ba -> plain_code ba = true -> ba_of sid = Some ba.
Proof.
  intros (rest & -> & Hrest)%spec_ba_between_prefix Hplain.
  unfold ba_of. by rewrite (search_here _ _ _ (match_here_re_ba_format rest ba Hrest Hplain)).
Qed.


(** Without a dash there is no match. *)

Lemma up_to_dash_tail c s : up_to_dash (String c s) = None -> up_to_dash s = None.
Proof.
  cbn. destruct (bool_decide _); [done|]. by destruct (up_to_dash s).
Qed.

Lemma up_to_dash_head c s : up_to_dash (String c s) = None -> c <> "-"%char.
Proof. cbn. case_bool_decide; done. Qed.

Lemma lazy_star_no_dash s st :
  up_to_dash s = None -> lazy_star AnyChar after_group s st = None.
Proof.
  revert st. induction s as [|c s IH]; intros st H; [done|].
  cbn [lazy_star]. rewrite after_group_cons.
  rewrite bool_decide_eq_false_2 by (intros <-; by apply up_to_dash_head in H).
  destruct (accepts AnyChar c); [|done]. apply IH. by eapply up_to_dash_tail.
Qed.

Lemma match_here_re_ba_no_dash s st :
  up_to_dash s = None -> match_here re_ba s st = None.
Proof.
  intros H.
  change (match_here re_ba s st) with
    (at_least_one (Lit "E"%char) (at_least_one (Lit "B"%char) (at_least_one (Lit "A"%char)
      (at_least_one AnyChar (fun s st =>
         at_least_one AnyChar (lazy_star AnyChar after_group) s
           {| closed := closed st; opened := Some "" |})))) s st).
  do 5 (destruct s as [|? s]; [done|]; cbn [at_least_one];
        destruct (accepts _ _); [|done]; apply up_to_dash_tail in H).
  by apply lazy_star_no_dash.
Qed.

Lemma search_re_ba_no_dash s : up_to_dash s = None -> search re_ba s = None.
Proof.
  induction s as [|c s IH]; intros H; cbn [search];
    rewrite match_here_re_ba_no_dash by done; [done|].
  apply IH. by eapply up_to_dash_tail.
Qed.

(** ** First appearances *)

Lemma elem_of_unique_from {A} `{EqDecision A} (seen l : list A) x :
  x ∈ unique_from seen l <-> x ∈ l /\ x ∉ seen.
Proof.
  revert seen. induction l as [|y l IH]; intros seen; cbn [unique_from].
  - rewrite elem_of_nil. tauto.
  - case_bool_decide as Hy.
    + rewrite IH, elem_of_cons. split; [tauto|].
      intros [[->|Hx] Hseen]; [contradiction|tauto].
    + rewrite !elem_of_cons, IH, elem_of_cons. split.
      * intros [->|[Hx Hseen]]; [tauto|]. split; [tauto|]. intros Hn. apply Hseen. by right.
      * intros [[->|Hx] Hseen]; [by left|].
        destruct (decide (x = y)) as [->|Hne]; [by left|]. right.
        split; [done|]. intros [?|?]; contradiction.
Qed.


Lemma unique_from_seen {A} `{EqDecision A} (seen seen' l : list A) :
  (forall x, x ∈ seen <-> x ∈ seen') -> unique_from seen l = unique_from seen' l.
Proof.
  revert seen seen'. induction l as [|y l IH]; intros seen seen' Hs; [done|].
  cbn [unique_from]. rewrite (bool_decide_ext _ _ (Hs y)).
  case_bool_decide; [by apply IH|]. f_equal. apply IH.
  intros x. rewrite !elem_of_cons, Hs. done.
Qed.

Lemma elem_of_unique {A} `{EqDecision A} (l : list A) x : x ∈ unique l <-> x ∈ l.
Proof. unfold unique. rewrite elem_of_unique_from, elem_of_nil. tauto. Qed.

Lemma elem_of_string_ids lines sid :
  sid ∈ string_ids lines <-> Some sid ∈ series_id <$> lines.
Proof.
  unfold string_ids, strings_only. rewrite list_elem_of_omap. split.
  - intros (o & Ho & Heq). unfold id in Heq. subst o. by apply (proj1 (elem_of_unique _ _)) in Ho.
  - intros H. exists (Some sid). split; [by apply (proj2 (elem_of_unique _ _))|done].
Qed.

(** ** The loop of the loader *)

Lemma is_ciso_search sid m :
  search re_ba sid = Some m -> is_ciso sid = bool_decide (group m 1 = "CISO").
Proof.
  intros Hm. unfold is_ciso, ba_of. rewrite Hm. cbn.
  apply bool_decide_ext. split; congruence.
Qed.

Lemma catalog_loop_Ok ids g n g' n' :
  catalog_loop ids g n = (g', Ok n') ->
  Forall (fun sid => is_Some (ba_of sid)) ids /\
  ba_list g' = ba_list g ++ unique_from (ba_list g) (omap ba_of ids) /\
  ts_list g' = ts_list g ++ omap ts_of (List.filter is_ciso ids) /\
  eba_json g' = eba_json g.
Proof.
  revert g n. induction ids as [|sid ids IH]; intros g n.
  - intros [= <- <-]. cbn. by rewrite !app_nil_r.
  - cbn [catalog_loop].
    destruct (search re_ba sid) as [m|] eqn:Hm; [|discriminate].
    assert (Hba : ba_of sid = Some (group m 1)) by (unfold ba_of; by rewrite Hm).
    assert (Hsome : is_Some (ba_of sid)) by (rewrite Hba; by eexists).
    cbn [omap list_omap List.filter]. rewrite Hba, (is_ciso_search sid m Hm).
    cbn [unique_from].
    assert (Hext : forall x, x ∈ group m 1 :: ba_list g <-> x ∈ ba_list g ++ [group m 1]).
    { intros x. rewrite elem_of_app, elem_of_cons, list_elem_of_singleton. tauto. }
    destruct (bool_decide (group m 1 ∈ ba_list g));
      destruct (bool_decide (group m 1 = "CISO")).
    + destruct (search re_ts sid) as [m2|] eqn:Hm2; [|discriminate].
      intros H. apply IH in H as (Hall & Hbas & Hts & Hjson).
      cbn [ba_list ts_list eba_json] in *.
      split_and!; [by constructor|done| |done].
      rewrite Hts. cbn [omap list_omap]. unfold ts_of at 2. rewrite Hm2.
      cbn. by rewrite <- app_assoc.
    + intros H. apply IH in H as (Hall & Hbas & Hts & Hjson).
      split_and!; [by constructor|done..].
    + cbn [ba_list ts_list eba_json].
      destruct (search re_ts sid) as [m2|] eqn:Hm2; [|discriminate].
      intros H. apply IH in H as (Hall & Hbas & Hts & Hjson).
      cbn [ba_list ts_list eba_json] in *.
      split_and!; [by constructor| | |done].
      * rewrite Hbas, <- app_assoc. cbn. do 2 f_equal. symmetry. by apply unique_from_seen.
      * rewrite Hts. cbn [omap list_omap]. unfold ts_of at 2. rewrite Hm2.
        cbn. by rewrite <- app_assoc.
    + intros H. apply IH in H as (Hall & Hbas & Hts & Hjson).
      cbn [ba_list ts_list eba_json] in *.
      split_and!; [by constructor| |done..].
      rewrite Hbas, <- app_assoc. cbn. do 2 f_equal. symmetry. by apply unique_from_seen.
Qed.

Lemma ba_of_search sid b :
  ba_of sid = Some b -> exists m, search re_ba sid = Some m /\ group m 1 = b.
Proof.
  unfold ba_of. destruct (search re_ba sid) as [m|]; [|done].
  intros [= <-]. eauto.
Qed.

Lemma catalog_loop_total ids g n :
  Forall (fun sid => is_Some (ba_of sid)) ids -> Forall ts_readable ids ->
  exists g' n', catalog_loop ids g n = (g', Ok n').
Proof.
  intros Hba. revert g n. induction Hba as [|sid ids [b Hb] _ IH]; intros g n Hts.
  - by do 2 eexists.
  - apply Forall_cons in Hts as [Hsid Hts]. cbn [catalog_loop].
    destruct (ba_of_search sid b Hb) as (m & Hm & <-). rewrite Hm.
    destruct (bool_decide (group m 1 ∈ ba_list g));
      (case_bool_decide as Hciso;
       [destruct Hsid as [ts Hts'];
          [by rewrite Hb, Hciso|];
        unfold ts_of in Hts'; destruct (search re_ts sid) as [m2|]; [|done]|];
       by apply IH).
Qed.

Lemma catalog_loop_Raise ids g n :
  Exists (fun sid => ba_of sid = None) ids ->
  (catalog_loop ids g n).2 = Raise AttributeError.
Proof.
  revert g n. induction ids as [|sid ids IH]; intros g n Hex.
  - by apply Exists_nil in Hex.
  - cbn [catalog_loop].
    destruct (search re_ba sid) as [m|] eqn:Hm; [|done].
    apply Exists_cons in Hex as [Hsid|Hex].
    { unfold ba_of in Hsid. by rewrite Hm in Hsid. }
    destruct (bool_decide (group m 1 ∈ ba_list g));
      (destruct (bool_decide (group m 1 = "CISO"));
       [destruct (search re_ts sid); [|done]|]; by apply IH).
Qed.


Lemma prepareEIAData_Ok lines g g' recs bas tss :
  prepareEIAData lines g = (g', Ok (recs, bas, tss)) ->
  recs = lines /\
  bas = ba_list g ++ unique_from (ba_list g) (omap ba_of (string_ids lines)) /\
  tss = ts_list g ++ omap ts_of (List.filter is_ciso (string_ids lines)).
Proof.
  unfold prepareEIAData. fold (string_ids lines).
  destruct (catalog_loop _ _ _) as [g1 [n1|e]] eqn:Hloop; [|discriminate].
  intros [= <- <- <- <-].
  apply catalog_loop_Ok in Hloop as (_ & Hbas & Hts & _). by cbn in *.
Qed.

Lemma prepareEIAData_total lines g :
  Forall (fun sid => is_Some (ba_of sid)) (string_ids lines) ->
  Forall ts_readable (string_ids lines) ->
  exists g' bas tss, prepareEIAData lines g = (g', Ok (lines, bas, tss)).
Proof.
  intros Hba Hts. unfold prepareEIAData. fold (string_ids lines).
  destruct (catalog_loop_total (string_ids lines)
    {| eba_json := Some lines; ba_list := ba_list g; ts_list := ts_list g |} 0 Hba Hts)
    as (g' & n' & ->).
  by do 3 eexists.
Qed.

Lemma up_to_dash_None s : up_to_dash s = None <-> "-"%char ∉ list_ascii_of_string s.
Proof.
  induction s as [|c s IH]; cbn [up_to_dash list_ascii_of_string].
  - split; [intros _; apply not_elem_of_nil|done].
  - rewrite not_elem_of_cons. case_bool_decide as Hc.
    + split; [done|]. intros [Hne _]. by subst c.
    + destruct (up_to_dash s); cbn.
      * split; [done|]. intros [_ H]. by apply IH in H.
      * split; [|done]. intros _. split; [congruence|]. by apply IH.
Qed.

(** ** The catalog of authorities *)




(** ** The catalog of series *)

(** C7, on the code: two ids of CISO that give the same segment put it
    twice in the catalog of series; the loader appends without asking
    whether the value is there, as it does ask for the authorities. *)
Theorem ts_catalog_repeats :
  string_ids [id_line "EBA.CISO-AZPS.ID.H"; id_line "EBA.CISO-BPAT.ID.H"]
    = ["EBA.CISO-AZPS.ID.H"; "EBA.CISO-BPAT.ID.H"] /\
  ts_of "EBA.CISO-AZPS.ID.H" = Some "ID.H" /\
  ts_of "EBA.CISO-BPAT.ID.H" = Some "ID.H" /\
  (prepareEIAData [id_line "EBA.CISO-AZPS.ID.H"; id_line "EBA.CISO-BPAT.ID.H"]
     module_globals).2
    = Ok ([id_line "EBA.CISO-AZPS.ID.H"; id_line "EBA.CISO-BPAT.ID.H"],
          ["CISO"], ["ID.H"; "ID.H"]) /\
  ~ NoDup ["ID.H"; "ID.H"].
Proof.
  split_and!; try (vm_compute; reflexivity).
  intros H. apply NoDup_cons in H as [H _]. apply H. by left.
Qed.

(** ** An id without a dash *)

(** C10: when some line of the file has a string series id that reads EBA.
    and then has no dash, the first pattern has no match on it and the
    loader raises (the error of [m.group] on [None]) instead of returning
    its catalogs. *)
Theorem loader_fails_on_id_without_dash lines g sid rest :
  Some sid ∈ series_id <$> lines ->
  sid = "EBA." +:+ rest ->
  "-"%char ∉ list_ascii_of_string rest ->
  search re_ba sid = None /\
  (prepareEIAData lines g).2 = Raise AttributeError.
Proof.
  intros Hin -> Hdash.
  assert (Hnone : search re_ba ("EBA." +:+ rest) = None).
  { apply search_re_ba_no_dash, up_to_dash_None.
    change (list_ascii_of_string ("EBA." +:+ rest))
      with ("E"%char :: "B"%char :: "A"%char :: "."%char :: list_ascii_of_string rest).
    rewrite !not_elem_of_cons. done. }
  assert (Hex : Exists (fun sid => ba_of sid = None) (string_ids lines)).
  { apply Exists_exists. exists ("EBA." +:+ rest). split.
    - by apply elem_of_string_ids.
    - unfold ba_of. by rewrite Hnone. }
  split; [exact Hnone|].
  unfold prepareEIAData. fold (string_ids lines).
  pose proof (catalog_loop_Raise (string_ids lines)
    {| eba_json := Some lines; ba_list := ba_list g; ts_list := ts_list g |} 0 Hex) as Hloop.
  destruct (catalog_loop _ _ _) as [g1 [n1|e]]; simpl in Hloop |- *;
    [discriminate Hloop|by injection Hloop as ->].
Qed.

Lemma loader_fails_on_id_without_dash_witness :
  (prepareEIAData [id_line "EBA.PJM-ALL.D.H"; id_line "EBA.CISO"] module_globals).2
  = Raise AttributeError.
Proof.
  refine (proj2 (loader_fails_on_id_without_dash
    [id_line "EBA.PJM-ALL.D.H"; id_line "EBA.CISO"] module_globals "EBA.CISO" "CISO" _ _ _)).
  - right. left.
  - reflexivity.
  - apply (bool_decide_unpack _). vm_compute. exact I.
Defined.

(** * Further properties of the range extractor *)

(** ** Looking a label up *)

Lemma loc_Some_elem df t p : loc df t = Some p -> (t, p) ∈ df.
Proof.
  induction df as [|[t' p'] df IH]; [done|]. cbn [loc].
  case_bool_decide as Ht.
  - intros [= <-]. subst t'. by left.
  - intros H. right. by apply IH.
Qed.

Lemma loc_None_labels df t : loc df t = None -> t ∉ df.*1.
Proof.
  induction df as [|[t' p'] df IH]; [intros _; apply not_elem_of_nil|].
  cbn [loc]. case_bool_decide as Ht; [done|].
  intros H. rewrite fmap_cons. apply not_elem_of_cons. split; [by cbn|by apply IH].
Qed.

Lemma loc_elem df t p : NoDup df.*1 -> (t, p) ∈ df -> loc df t = Some p.
Proof.
  induction df as [|[t' p'] df IH]; intros Hnd Hin; [by apply elem_of_nil in Hin|].
  rewrite fmap_cons in Hnd. apply NoDup_cons in Hnd as [Hnot Hnd].
  cbn [loc]. apply elem_of_cons in Hin as [[= <- <-]|Hin].
  - by rewrite bool_decide_eq_true_2.
  - rewrite bool_decide_eq_false_2; [by apply IH|].
    intros <-. apply Hnot. cbn. apply list_elem_of_fmap. by exists (t', p).
Qed.

Lemma loc_labels df t : t ∉ df.*1 -> loc df t = None.
Proof.
  intros H. destruct (loc df t) as [p|] eqn:Hloc; [|done].
  apply loc_Some_elem in Hloc. exfalso. apply H.
  apply list_elem_of_fmap. by exists (t, p).
Qed.

Lemma loc_Permutation df df' t :
  df ≡ₚ df' -> NoDup df.*1 -> loc df' t = loc df t.
Proof.
  intros Hperm Hnd.
  assert (Hnd' : NoDup df'.*1) by (by rewrite <- Hperm).
  destruct (loc df t) as [p|] eqn:Hloc.
  - apply loc_elem; [done|]. rewrite <- Hperm. by apply loc_Some_elem.
  - apply loc_labels. rewrite <- Hperm. by apply loc_None_labels.
Qed.

Lemma reindex_Permutation df df' idx fill :
  df ≡ₚ df' -> reindex df' idx fill = reindex df idx fill.
Proof.
  intros Hperm. unfold reindex.
  rewrite (bool_decide_ext (NoDup df'.*1) (NoDup df.*1)) by (by rewrite Hperm).
  case_bool_decide as Hnd; [|done]. f_equal.
  apply list_fmap_ext. intros _ t _. by rewrite (loc_Permutation df df').
Qed.

Lemma reindex_sort_values df idx fill :
  reindex (sort_values df) idx fill = reindex df idx fill.
Proof. apply reindex_Permutation. symmetry. apply merge_sort_Permutation. Qed.

(** ** The column of a type that has a record *)

Lemma fuel_column_record recs ba start_idx end_idx idx ng r rs w c :
  select_series recs (series_name ba ng) = r :: rs ->
  fuel_column recs ba start_idx end_idx idx ng = (w, Ok c) ->
  NoDup (filtered_frame start_idx end_idx r).*1 /\
  c = (fun t => default 0 (loc (filtered_frame start_idx end_idx r) t)) <$> idx.
Proof.
  intros Hsel. unfold fuel_column. rewrite Hsel. intros H.
  apply out_bind_Ok in H as (w1 & [] & w2 & _ & H & _).
  apply out_bind_Ok in H as (w3 & [] & w4 & _ & H & _).
  rewrite reindex_sort_values in H. unfold reindex in H.
  case_bool_decide as Hnd; [|discriminate]. by injection H as <- <-.
Qed.

Lemma value_normalize_to_utc t : value (normalize_to_utc t) = to_datetime_utc t.
Proof.
  unfold value, normalize_to_utc, to_datetime_utc, tz_localize, tz_convert, UTC.
  destruct (tzinfo t); cbn; lia.
Qed.

Lemma in_range_midnight d0 d1 (x : Timestamp * Z) :
  in_range (midnight_utc d0) (midnight_utc d1) x = true <->
  d0 * day_ns <= to_datetime_utc x.1 <= d1 * day_ns.
Proof.
  unfold in_range, ts_ge, ts_le. rewrite value_normalize_to_utc.
  unfold value, midnight_utc, UTC. cbn.
  rewrite andb_true_iff, !Z.leb_le. lia.
Qed.

Lemma elem_of_filtered_frame d0 d1 r t p :
  (t, p) ∈ filtered_frame (midnight_utc d0) (midnight_utc d1) r <->
  exists x, x ∈ data r /\ to_datetime_utc x.1 = t /\ x.2 = p /\
            d0 * day_ns <= t <= d1 * day_ns.
Proof.
  unfold filtered_frame. rewrite list_elem_of_fmap. split.
  - intros (x & [= -> ->] & Hx). apply list_elem_of_In, filter_In in Hx as [Hx Hr].
    exists x. split; [by apply list_elem_of_In|]. split; [done|]. split; [done|].
    by apply in_range_midnight.
  - intros (x & Hx & <- & <- & Hr). exists x. split; [done|].
    apply list_elem_of_In, filter_In. split; [by apply list_elem_of_In|].
    by apply in_range_midnight.
Qed.

Lemma hour_in_range d0 d1 k :
  0 <= k <= (d1 - d0) * 24 ->
  d0 * day_ns <= d0 * day_ns + k * hour_ns <= d1 * day_ns.
Proof. unfold day_ns, hour_ns. lia. Qed.

(** X1.  In a table [extractBARange] returns, the cell of an hour and of an
    energy type that has a record is the power of the pair of that record
    whose timestamp, taken to UTC, is that hour, and 0 when the record has
    no such pair. *)
Theorem extracted_cell recs ba d0 d1 w t j ng r k :
  extractBARange recs ba d0 d1 = (w, Ok t) ->
  ng_list !! j = Some ng ->
  used_record recs ba ng = Some r ->
  0 <= k <= (d1 - d0) * 24 ->
  (forall x, x ∈ data r -> to_datetime_utc x.1 = d0 * day_ns + k * hour_ns ->
             cell t (Z.to_nat k) j = Some x.2) /\
  ((forall x, x ∈ data r -> to_datetime_utc x.1 <> d0 * day_ns + k * hour_ns) ->
   cell t (Z.to_nat k) j = Some 0).
Proof.
  intros H Hj Hused Hk.
  apply extractBARange_Ok in H as (cols & Hcols & ->).
  destruct (Forall2_lookup_l _ _ _ _ _ Hcols Hj) as (c & Hc & w' & Hng).
  unfold used_record in Hused.
  destruct (select_series recs (series_name ba ng)) as [|r' rs] eqn:Hsel; [done|].
  injection Hused as ->.
  destruct (fuel_column_record _ _ _ _ _ _ _ _ _ _ Hsel Hng) as [Hnd ->].
  pose proof (extractBARange_columns_length _ _ _ _ _ Hcols) as Hlen.
  assert (Hrow : exists row,
    transpose (length (date_range d0 d1)) cols !! Z.to_nat k = Some row).
  { apply lookup_lt_is_Some. rewrite length_transpose by done.
    rewrite length_date_range. lia. }
  destruct Hrow as [row Hrow].
  assert (Hcell : forall v,
    default 0 (loc (filtered_frame (midnight_utc d0) (midnight_utc d1) r)
                 (d0 * day_ns + k * hour_ns)) = v ->
    cell {| index := date_range d0 d1; columns := ng_list;
            values := transpose (length (date_range d0 d1)) cols |} (Z.to_nat k) j = Some v).
  { intros v <-. unfold cell. cbn [values]. rewrite Hrow. cbn.
    rewrite (transpose_cell _ _ _ _ _ _ Hrow Hc), list_lookup_fmap.
    by rewrite lookup_date_range. }
  split.
  - intros x Hx Ht. apply Hcell. rewrite (loc_elem _ _ x.2); [done|done|].
    apply elem_of_filtered_frame. exists x.
    split; [done|]. split; [done|]. split; [done|]. by apply hour_in_range.
  - intros Hnone. apply Hcell. rewrite loc_labels; [done|].
    intros ([t' p] & Ht' & Hin)%list_elem_of_fmap. cbn in Ht'. subst t'.
    apply elem_of_filtered_frame in Hin as (x & Hx & Ht & _). by apply (Hnone x).
Qed.

Lemma extracted_cell_witness : cell nuc_table 3 6 = Some 100.
Proof.
  assert (Hex : extractBARange [nuc_record] "TEST" (civil 2020 1 1) (civil 2020 1 2)
                = ([], Ok nuc_table)) by (vm_compute; reflexivity).
  assert (Hk : 0 <= 3 <= (civil 2020 1 2 - civil 2020 1 1) * 24) by (vm_compute; split; discriminate).
  destruct (extracted_cell [nuc_record] "TEST" (civil 2020 1 1) (civil 2020 1 2)
              [] nuc_table 6 "NUC" nuc_record 3 Hex eq_refl eq_refl Hk) as [Hcell _].
  apply (Hcell ({| wall := civil 2020 1 1 * day_ns + 3 * hour_ns; tzinfo := Some UTC |}, 100)).
  - apply (list_elem_of_lookup_2 _ 3%nat). reflexivity.
  - reflexivity.
Defined.

(** ** What the result depends on *)

Lemma out_bind_snd {A B} (m : Out A) (f : A -> Out B) :
  (out_bind m f).2 = match m.2 with Ok a => (f a).2 | Raise e => Raise e end.
Proof. destruct m as [w [a|e]]; cbn; [|done]. by destruct (f a). Qed.

Lemma out_bind_fst {A B} (m : Out A) (f : A -> Out B) :
  (out_bind m f).1 = m.1 ++ match m.2 with Ok a => (f a).1 | Raise e => [] end.
Proof.
  destruct m as [w [a|e]]; cbn; [|by rewrite app_nil_r]. by destruct (f a).
Qed.

Lemma fuel_loop_snd_ext column column' fuels :
  (forall ng, (column ng).2 = (column' ng).2) ->
  (fuel_loop column fuels).2 = (fuel_loop column' fuels).2.
Proof.
  intros H. induction fuels as [|ng fuels IH]; [done|].
  cbn [fuel_loop]. rewrite !out_bind_snd, H.
  destruct ((column' ng).2) as [c|e]; [|done].
  by rewrite !out_bind_snd, IH.
Qed.

Lemma fuel_column_snd recs ba start_idx end_idx idx ng :
  (fuel_column recs ba start_idx end_idx idx ng).2
  = match used_record recs ba ng with
    | None => Ok (replicate (length idx) 0)
    | Some r => reindex (filtered_frame start_idx end_idx r) idx 0
    end.
Proof.
  unfold fuel_column, used_record.
  destruct (select_series recs (series_name ba ng)) as [|r rs]; [done|].
  cbn [head]. rewrite !out_bind_snd.
  destruct (print_when_Ok (ts_lt start_idx (normalize_to_utc (start r)))
    (IndexedStartPrecedes start_idx ng (normalize_to_utc (start r)))) as [w1 ->].
  destruct (print_when_Ok (ts_gt end_idx (normalize_to_utc (end_ r)))
    (IndexedEndBeyond end_idx ng (normalize_to_utc (end_ r)))) as [w2 ->].
  cbn [snd]. rewrite reindex_sort_values.
  by destruct (reindex _ idx 0).
Qed.

Lemma fuel_column_used recs recs' ba start_idx end_idx idx ng :
  used_record recs' ba ng = used_record recs ba ng ->
  fuel_column recs' ba start_idx end_idx idx ng
  = fuel_column recs ba start_idx end_idx idx ng.
Proof.
  unfold used_record, fuel_column.
  destruct (select_series recs' (series_name ba ng)) as [|r' rs'];
    destruct (select_series recs (series_name ba ng)) as [|r rs]; try done.
  by intros [= ->].
Qed.

Lemma extractBARange_ext recs recs' ba d0 d1 :
  (forall ng, fuel_column recs' ba (midnight_utc d0) (midnight_utc d1) (date_range d0 d1) ng
              = fuel_column recs ba (midnight_utc d0) (midnight_utc d1) (date_range d0 d1) ng) ->
  extractBARange recs' ba d0 d1 = extractBARange recs ba d0 d1.
Proof. intros H. unfold extractBARange. f_equal. by apply fuel_loop_ext. Qed.

Lemma extractBARange_snd_ext recs recs' ba d0 d1 :
  (forall ng, (fuel_column recs' ba (midnight_utc d0) (midnight_utc d1) (date_range d0 d1) ng).2
              = (fuel_column recs ba (midnight_utc d0) (midnight_utc d1)
                   (date_range d0 d1) ng).2) ->
  (extractBARange recs' ba d0 d1).2 = (extractBARange recs ba d0 d1).2.
Proof.
  intros H. unfold extractBARange. rewrite !out_bind_snd.
  by rewrite (fuel_loop_snd_ext _ _ _ H).
Qed.

(** ** The order of the pairs *)

Lemma filter_Permutation {A} (f : A -> bool) (l l' : list A) :
  l ≡ₚ l' -> List.filter f l ≡ₚ List.filter f l'.
Proof.
  induction 1 as [|x l l' _ IH|x y l|l l' l'' _ IH1 _ IH2]; cbn [List.filter].
  - done.
  - destruct (f x); by rewrite IH.
  - destruct (f x), (f y); try done. apply perm_swap.
  - by rewrite IH1.
Qed.

Lemma select_series_Forall2 (R : RawRecord -> RawRecord -> Prop) recs recs' name :
  (forall r r', R r r' -> series_id r' = series_id r) ->
  Forall2 R recs recs' ->
  Forall2 R (select_series recs name) (select_series recs' name).
Proof.
  intros HR. unfold select_series. induction 1 as [|r r' recs recs' Hr _ IH]; [constructor|].
  cbn [List.filter]. rewrite (HR r r' Hr).
  destruct (bool_decide _); [by constructor|done].
Qed.

(** X2.  The order in which a record lists its pairs is of no account:
    records that differ only by it give the same printed notices and the
    same result, table or error. *)
Theorem pairs_in_any_order recs recs' ba d0 d1 :
  Forall2 same_but_order recs recs' ->
  extractBARange recs' ba d0 d1 = extractBARange recs ba d0 d1.
Proof.
  intros Hrecs. apply extractBARange_ext. intros ng.
  pose proof (select_series_Forall2 same_but_order recs recs' (series_name ba ng)
                (fun r r' H => proj1 H) Hrecs) as Hsel.
  unfold fuel_column.
  destruct Hsel as [|r r' rs rs' (_ & Hstart & Hend & Hdata) _]; [done|].
  rewrite Hstart, Hend. do 2 f_equal.
  rewrite !reindex_sort_values.
  rewrite (reindex_Permutation (filtered_frame (midnight_utc d0) (midnight_utc d1) r)
             (filtered_frame (midnight_utc d0) (midnight_utc d1) r')); [done|].
  unfold filtered_frame. apply fmap_Permutation, filter_Permutation. by symmetry.
Qed.

Lemma pairs_in_any_order_witness :
  extractBARange
    [{| series_id := series_id nuc_record; start := start nuc_record;
        end_ := end_ nuc_record; data := reverse (data nuc_record) |}]
    "TEST" (civil 2020 1 1) (civil 2020 1 2)
  = ([], Ok nuc_table).
Proof.
  rewrite (pairs_in_any_order [nuc_record]).
  - vm_compute. reflexivity.
  - constructor; [|constructor].
    split; [reflexivity|]. split; [reflexivity|]. split; [reflexivity|].
    apply reverse_Permutation.
Defined.

(** ** Which record counts *)

Lemma select_series_app recs1 recs2 name :
  select_series (recs1 ++ recs2) name
  = select_series recs1 name ++ select_series recs2 name.
Proof. unfold select_series. apply List.filter_app. Qed.

Lemma select_series_elem recs name r :
  r ∈ recs -> series_id r = Some name -> select_series recs name <> [].
Proof.
  intros Hr Hid Hnil.
  assert (Hin : In r (select_series recs name)).
  { apply filter_In. split; [by apply list_elem_of_In|].
    by apply bool_decide_eq_true_2. }
  by rewrite Hnil in Hin.
Qed.

(** X3.  Only the first record of a series counts: a line that has no
    string series id, or whose series id an earlier line has, changes
    neither the notices nor the result, whatever its bounds and its data. *)
Theorem later_record_is_ignored recs1 r' recs2 ba d0 d1 :
  series_id r' = None \/ (exists r, r ∈ recs1 /\ series_id r = series_id r') ->
  extractBARange (recs1 ++ r' :: recs2) ba d0 d1 = extractBARange (recs1 ++ recs2) ba d0 d1.
Proof.
  intros Hr'. apply extractBARange_ext. intros ng. apply fuel_column_used.
  unfold used_record. rewrite !select_series_app.
  change (r' :: recs2) with ([r'] ++ recs2). rewrite select_series_app.
  unfold select_series at 2. cbn [List.filter].
  case_bool_decide as Hid; [|done].
  destruct Hr' as [Hnone|(r & Hr & Hsame)]; [congruence|].
  pose proof (select_series_elem recs1 (series_name ba ng) r Hr) as Hne.
  destruct (select_series recs1 (series_name ba ng)); [|done].
  exfalso. apply Hne; [congruence|done].
Qed.

Lemma later_record_is_ignored_witness :
  extractBARange [nuc_record; wnd_twice; nuc_record_naive] "TEST"
    (civil 2020 1 1) (civil 2020 1 2)
  = extractBARange [nuc_record; wnd_twice] "TEST" (civil 2020 1 1) (civil 2020 1 2).
Proof.
  apply (later_record_is_ignored [nuc_record; wnd_twice] nuc_record_naive []).
  right. exists nuc_record. split; [by left|reflexivity].
Defined.

(** ** The declared bounds *)

(** X4.  The bounds a record declares decide the notices only: records
    that differ by their [start] and [end] give the same table, or the same
    error. *)
Theorem bounds_do_not_change_the_table recs recs' ba d0 d1 :
  Forall2 same_but_bounds recs recs' ->
  (extractBARange recs' ba d0 d1).2 = (extractBARange recs ba d0 d1).2.
Proof.
  intros Hrecs. apply extractBARange_snd_ext. intros ng.
  rewrite !fuel_column_snd. unfold used_record.
  pose proof (select_series_Forall2 same_but_bounds recs recs' (series_name ba ng)
                (fun r r' H => proj1 H) Hrecs) as Hsel.
  destruct Hsel as [|r r' rs rs' [_ Hdata] _]; [done|].
  cbn [head]. unfold filtered_frame. by rewrite Hdata.
Qed.

Lemma bounds_do_not_change_the_table_witness :
  (extractBARange
     [{| series_id := series_id nuc_record; start := midnight_utc (civil 2020 1 2);
         end_ := midnight_utc (civil 2020 1 1); data := data nuc_record |}]
     "TEST" (civil 2020 1 1) (civil 2020 1 2)).2
  = Ok nuc_table.
Proof.
  rewrite (bounds_do_not_change_the_table [nuc_record]).
  - vm_compute. reflexivity.
  - constructor; [|constructor]. split; reflexivity.
Defined.

(** X5.  When every record used declares bounds that enclose the range
    asked for, nothing is printed. *)
Theorem enclosing_bounds_print_nothing recs ba d0 d1 :
  (forall ng r, used_record recs ba ng = Some r ->
     to_datetime_utc (start r) <= d0 * day_ns /\ d1 * day_ns <= to_datetime_utc (end_ r)) ->
  (extractBARange recs ba d0 d1).1 = [].
Proof.
  intros Hcover.
  assert (Hcol : forall ng,
    (fuel_column recs ba (midnight_utc d0) (midnight_utc d1) (date_range d0 d1) ng).1 = []).
  { intros ng. specialize (Hcover ng). unfold used_record in Hcover. unfold fuel_column.
    destruct (select_series recs (series_name ba ng)) as [|r rs]; [done|].
    destruct (Hcover r eq_refl) as [Hs He].
    unfold ts_gt, ts_lt. rewrite !value_normalize_to_utc.
    unfold value, midnight_utc, UTC. cbn [wall tzinfo default].
    rewrite !Z.sub_0_r.
    rewrite (proj2 (Z.ltb_ge _ _) Hs), (proj2 (Z.ltb_ge _ _) He).
    cbn. by destruct (reindex _ _ _). }
  unfold extractBARange. rewrite out_bind_fst.
  assert (Hloop : forall fuels,
    (fuel_loop (fuel_column recs ba (midnight_utc d0) (midnight_utc d1)
                  (date_range d0 d1)) fuels).1 = []).
  { induction fuels as [|ng fuels IH]; [done|].
    cbn [fuel_loop]. rewrite out_bind_fst, Hcol. cbn [app].
    destruct (_.2) as [c|e]; [|done].
    rewrite out_bind_fst, IH. cbn [app]. by destruct (_.2). }
  rewrite Hloop. cbn [app]. by destruct (_.2).
Qed.

Lemma enclosing_bounds_print_nothing_witness :
  (extractBARange [nuc_record] "TEST" (civil 2020 1 1) (civil 2020 1 2)).1 = [].
Proof.
  apply enclosing_bounds_print_nothing. intros ng r.
  unfold used_record, select_series. cbn [List.filter].
  case_bool_decide; [|discriminate]. intros [= <-].
  vm_compute. split; discriminate.
Defined.

(** ** An authority without records, and a range the wrong way round *)









(** * Further properties of the carbon aggregator *)

Lemma clip_cell_idempotent x : clip_cell (clip_cell x) = clip_cell x.
Proof. unfold clip_cell. destruct (Z.ltb_spec x 0); [done|]. by rewrite (proj2 (Z.ltb_ge _ _)). Qed.

Lemma clip_negative_idempotent db : clip_negative (clip_negative db) = clip_negative db.
Proof.
  unfold clip_negative. cbn [index columns values]. f_equal.
  rewrite <- list_fmap_compose. apply list_fmap_ext. intros _ row _. cbn.
  rewrite <- list_fmap_compose. apply list_fmap_ext. intros _ x _. cbn.
  apply clip_cell_idempotent.
Qed.

(** X8.  A second call on the same table gives what the first gave and
    leaves the tables as the first left them: the clipping is done once
    and for all. *)
Theorem calculate_twice (h : Heap) l db :
  h !! l = Some db ->
  calculateAVGCarbonIntensity l (calculateAVGCarbonIntensity l h).1
  = calculateAVGCarbonIntensity l h.
Proof.
  intros Hl. rewrite (calculate_heap h l db) by done.
  unfold calculateAVGCarbonIntensity. rewrite Hl, lookup_insert_eq.
  rewrite clip_negative_idempotent, insert_insert_eq. reflexivity.
Qed.

Lemma calculate_twice_witness :
  calculateAVGCarbonIntensity 1%positive
    (calculateAVGCarbonIntensity 1%positive
       {[1%positive := set_cell nuc_table 0 0 (-7)]}).1
  = calculateAVGCarbonIntensity 1%positive {[1%positive := set_cell nuc_table 0 0 (-7)]}.
Proof. apply (calculate_twice _ _ (set_cell nuc_table 0 0 (-7))), lookup_singleton_eq. Defined.

(** ** The quotient *)









(** ** Between the smallest and the largest factor *)





(** ** One energy type alone *)



(** ** The unit of the generation *)










(** ** A column that is missing, a column too many *)

Lemma intensity_loop_KeyError db pre c k post tot :
  Forall (fun ck => is_Some (position ck.1 (columns db))) pre ->
  position c (columns db) = None ->
  intensity_loop db (pre ++ (c, k) :: post) tot = Raise (KeyError c).
Proof.
  intros Hpre Hc. revert tot.
  induction Hpre as [|[c' k'] pre [j Hj] _ IH]; intros tot.
  - cbn [app intensity_loop]. unfold getitem. by rewrite Hc.
  - cbn [app intensity_loop]. unfold getitem. cbn in Hj. rewrite Hj.
    destruct tot; apply IH.
Qed.

(** X13.  When the table, of distinct column labels, lacks the column of
    an energy type, the call raises the key error of the first one it
    lacks, in the order of [carbon_intensity]; by then the caller's table
    has been clipped. *)
Theorem missing_column_raises (h : Heap) l db pre c k post :
  h !! l = Some db -> NoDup (columns db) ->
  carbon_intensity = pre ++ (c, k) :: post ->
  Forall (fun ck => is_Some (position ck.1 (columns db))) pre ->
  position c (columns db) = None ->
  calculateAVGCarbonIntensity l h = (<[l := clip_negative db]> h, Raise (KeyError c)).
Proof.
  intros Hl _ Hitems Hpre Hc. unfold calculateAVGCarbonIntensity. rewrite Hl, Hitems.
  by rewrite (intensity_loop_KeyError (clip_negative db) pre c k post None).
Qed.

Lemma missing_column_raises_witness :
  calculateAVGCarbonIntensity 1%positive
    {[1%positive := {| index := [0]; columns := ["WND"; "SUN"; "NUC"]; values := [[5; -1; 7]] |}]}
  = ({[1%positive := {| index := [0]; columns := ["WND"; "SUN"; "NUC"];
                        values := [[5; 0; 7]] |}]},
     Raise (KeyError "WAT")).
Proof.
  rewrite (missing_column_raises _ 1%positive
             {| index := [0]; columns := ["WND"; "SUN"; "NUC"]; values := [[5; -1; 7]] |}
             [("WND", 11); ("SUN", 41)] "WAT" 24
             [("OIL", 650); ("NG", 490); ("COL", 820); ("NUC", 12); ("OTH", 230)]).
  - by rewrite insert_singleton_eq.
  - apply lookup_singleton_eq.
  - apply (bool_decide_unpack _). vm_compute. exact I.
  - reflexivity.
  - repeat constructor; by eexists.
  - reflexivity.
Defined.

Lemma position_app_l c cols extra j :
  position c cols = Some j -> position c (cols ++ extra) = Some j.
Proof.
  revert j. induction cols as [|c' cols IH]; intros j; [done|].
  cbn [position app]. destruct (bool_decide (c' = c)); [done|].
  destruct (position c cols) as [j'|]; [|done]. cbn.
  intros [= <-]. by rewrite (IH j').
Qed.

Lemma getitem_prefix db extra j c :
  columns db = ng_list ++ extra -> ng_list !! j = Some c ->
  getitem db c = Ok ((fun row => at_column row j) <$> values db).
Proof.
  intros Hcols Hj. unfold getitem. rewrite Hcols.
  assert (Hpos : position c ng_list = Some j).
  { unfold ng_list in *.
    do 8 (destruct j as [|j]; [injection Hj as <-; reflexivity|]). discriminate. }
  by rewrite (position_app_l _ _ _ _ Hpos).
Qed.

Lemma calculate_prefix (h : Heap) l db extra :
  h !! l = Some db -> columns db = ng_list ++ extra ->
  (calculateAVGCarbonIntensity l h).2
  = Ok {| index := index db; columns := ["carbon_intensity"];
          values := (fun row => [intensity_row row]) <$> values db |}.
Proof.
  intros Hl Hcols. unfold calculateAVGCarbonIntensity. rewrite Hl.
  assert (Hloop : intensity_loop (clip_negative db) carbon_intensity None
                  = Ok (Some (emissions_row <$> values (clip_negative db)))).
  { unfold carbon_intensity. cbn [intensity_loop].
    rewrite (getitem_prefix _ extra 0 "WND"), (getitem_prefix _ extra 1 "SUN"),
      (getitem_prefix _ extra 2 "WAT"), (getitem_prefix _ extra 3 "OIL"),
      (getitem_prefix _ extra 4 "NG"), (getitem_prefix _ extra 5 "COL"),
      (getitem_prefix _ extra 6 "NUC"), (getitem_prefix _ extra 7 "OTH") by done.
    rewrite <- !list_fmap_compose. rewrite !zip_with_fmap_same. reflexivity. }
  rewrite Hloop. unfold sum_axis1. rewrite zip_with_fmap_same.
  cbn [clip_negative values index snd]. rewrite <- !list_fmap_compose. reflexivity.
Qed.

Lemma sum_row_app (l1 l2 : list Z) : sum_row (l1 ++ l2) = sum_row l1 + sum_row l2.
Proof.
  unfold sum_row. induction l1 as [|x l1 IH]; [cbn; lia|]. cbn. rewrite IH. lia.
Qed.

Lemma emissions_row_app (l1 l2 : list Z) :
  length l1 = 8%nat -> emissions_row (l1 ++ l2) = emissions_row l1.
Proof.
  intros H. unfold emissions_row, at_column.
  by rewrite !lookup_app_l by (rewrite H; lia).
Qed.

(** X14.  A column besides the eight counts in the total generation and
    not in the emissions: when the labels are those of [ng_list] followed
    by labels that are not energy types, the result of a row is its
    weighted emissions over the sum of all its cells, the others included,
    each clipped at zero. *)
Theorem further_columns_dilute (h : Heap) l db extra i fuels others :
  h !! l = Some db -> columns db = ng_list ++ extra ->
  Forall (fun c => c ∉ ng_list) extra ->
  values db !! i = Some (fuels ++ others) -> length fuels = 8%nat ->
  exists out,
    (calculateAVGCarbonIntensity l h).2 = Ok out /\
    values out !! i
    = Some [true_divide (emissions_row (clip_cell <$> fuels))
              (sum_row (clip_cell <$> fuels) + sum_row (clip_cell <$> others))].
Proof.
  intros Hl Hcols _ Hrow Hlen. rewrite (calculate_prefix h l db extra) by done.
  eexists. split; [reflexivity|]. cbn [values].
  rewrite list_lookup_fmap, Hrow. cbn [fmap option_fmap option_map]. do 2 f_equal.
  unfold intensity_row. rewrite fmap_app, sum_row_app, emissions_row_app; [done|].
  by rewrite length_fmap.
Qed.

Lemma further_columns_dilute_witness :
  exists out,
    (calculateAVGCarbonIntensity 1%positive
       {[1%positive := {| index := [0]; columns := ng_list ++ ["D"];
                          values := [[0; 0; 0; 0; 0; 100; 0; 0; 100]] |}]}).2 = Ok out /\
    values out !! 0%nat = Some [Fin (410 # 1)].
Proof.
  apply (further_columns_dilute _ 1%positive
           {| index := [0]; columns := ng_list ++ ["D"];
              values := [[0; 0; 0; 0; 0; 100; 0; 0; 100]] |}
           ["D"] 0 [0; 0; 0; 0; 0; 100; 0; 0] [100]);
    [apply lookup_singleton_eq|reflexivity| |reflexivity|reflexivity].
  apply (bool_decide_unpack _). vm_compute. exact I.
Defined.

(** * Further properties of the loader *)

(** ** The globals after a load *)

Lemma catalog_loop_globals ids g n :
  eba_json (catalog_loop ids g n).1 = eba_json g /\
  ba_list g `prefix_of` ba_list (catalog_loop ids g n).1 /\
  ts_list g `prefix_of` ts_list (catalog_loop ids g n).1 /\
  (NoDup (ba_list g) -> NoDup (ba_list (catalog_loop ids g n).1)).
Proof.
  revert g n. induction ids as [|sid ids IH]; intros g n; [done|].
  cbn [catalog_loop].
  destruct (search re_ba sid) as [m|]; [|done].
  destruct (bool_decide_reflect (group m 1 ∈ ba_list g)) as [Hin|Hin];
    destruct (bool_decide (group m 1 = "CISO")).
  - destruct (search re_ts sid) as [m2|]; [|done].
    destruct (IH {| eba_json := eba_json g; ba_list := ba_list g;
                    ts_list := ts_list g ++ [group m2 2] |} n) as (Hj & Hb & Ht & Hn).
    cbn [eba_json ba_list ts_list] in *. split_and!; [done|done| |done].
    etrans; [|exact Ht]. by apply prefix_app_r.
  - apply IH.
  - cbn [eba_json ba_list ts_list].
    destruct (search re_ts sid) as [m2|].
    + destruct (IH {| eba_json := eba_json g; ba_list := ba_list g ++ [group m 1];
                      ts_list := ts_list g ++ [group m2 2] |} (n + 1)) as (Hj & Hb & Ht & Hn).
      cbn [eba_json ba_list ts_list] in *. split_and!; [done| | |].
      * etrans; [|exact Hb]. by apply prefix_app_r.
      * etrans; [|exact Ht]. by apply prefix_app_r.
      * intros Hnd. apply Hn. apply NoDup_app. split_and!; [done| |apply NoDup_singleton].
        intros x Hx ->%list_elem_of_singleton. done.
    + cbn [fst eba_json ba_list ts_list]. split_and!; [done| |done|].
      * by apply prefix_app_r.
      * intros Hnd. apply NoDup_app. split_and!; [done| |apply NoDup_singleton].
        intros x Hx ->%list_elem_of_singleton. done.
  - destruct (IH {| eba_json := eba_json g; ba_list := ba_list g ++ [group m 1];
                    ts_list := ts_list g |} (n + 1)) as (Hj & Hb & Ht & Hn).
    cbn [eba_json ba_list ts_list] in *. split_and!; [done| |done|].
    + etrans; [|exact Hb]. by apply prefix_app_r.
    + intros Hnd. apply Hn. apply NoDup_app. split_and!; [done| |apply NoDup_singleton].
      intros x Hx ->%list_elem_of_singleton. done.
Qed.

Lemma prepareEIAData_fst lines g :
  (prepareEIAData lines g).1
  = (catalog_loop (string_ids lines)
       {| eba_json := Some lines; ba_list := ba_list g; ts_list := ts_list g |} 0).1.
Proof.
  unfold prepareEIAData. fold (string_ids lines).
  by destruct (catalog_loop _ _ _) as [g1 [n1|e]].
Qed.

(** X15.  Whether the loader returns or raises, it leaves the frame of the
    file in [eba_json], and its two catalogs begin with what they held
    before the call: a load never removes nor reorders an entry, and the
    catalog of authorities stays free of repetitions if it was. *)
Theorem loader_only_appends lines g :
  eba_json (prepareEIAData lines g).1 = Some lines /\
  ba_list g `prefix_of` ba_list (prepareEIAData lines g).1 /\
  ts_list g `prefix_of` ts_list (prepareEIAData lines g).1 /\
  (NoDup (ba_list g) -> NoDup (ba_list (prepareEIAData lines g).1)).
Proof.
  rewrite prepareEIAData_fst.
  apply (catalog_loop_globals (string_ids lines)
           {| eba_json := Some lines; ba_list := ba_list g; ts_list := ts_list g |} 0).
Qed.

Lemma loader_only_appends_witness :
  NoDup (ba_list (prepareEIAData [id_line "EBA.PJM-ALL.D.H"; id_line "EBA.CISO"]
                    module_globals).1).
Proof.
  apply (loader_only_appends [id_line "EBA.PJM-ALL.D.H"; id_line "EBA.CISO"] module_globals).
  apply NoDup_nil_2.
Defined.

(** ** Loading the same file again *)

Lemma catalog_loop_Ok_readable ids g n g' n' :
  catalog_loop ids g n = (g', Ok n') -> Forall ts_readable ids.
Proof.
  revert g n. induction ids as [|sid ids IH]; intros g n; [constructor|].
  cbn [catalog_loop].
  destruct (search re_ba sid) as [m|] eqn:Hm; [|discriminate].
  assert (Hba : ba_of sid = Some (group m 1)) by (unfold ba_of; by rewrite Hm).
  assert (Hyes : forall m2, search re_ts sid = Some m2 -> ts_readable sid).
  { intros m2 Hm2 _. unfold ts_of. rewrite Hm2. by eexists. }
  assert (Hno : group m 1 <> "CISO" -> ts_readable sid).
  { intros Hne Hc. congruence. }
  destruct (bool_decide (group m 1 ∈ ba_list g)); case_bool_decide as Hciso.
  - destruct (search re_ts sid) as [m2|] eqn:Hm2; [|discriminate].
    intros H. apply IH in H. constructor; [by eapply Hyes|done].
  - intros H. apply IH in H. constructor; [by apply Hno|done].
  - destruct (search re_ts sid) as [m2|] eqn:Hm2; [|discriminate].
    intros H. apply IH in H. constructor; [by eapply Hyes|done].
  - intros H. apply IH in H. constructor; [by apply Hno|done].
Qed.

Lemma unique_from_all_seen {A} `{EqDecision A} (seen l : list A) :
  (forall x, x ∈ l -> x ∈ seen) -> unique_from seen l = [].
Proof.
  induction l as [|x l IH]; intros H; [done|]. cbn [unique_from].
  rewrite bool_decide_eq_true_2 by (apply H; by left).
  apply IH. intros y Hy. apply H. by right.
Qed.

Lemma prepareEIAData_Ok_globals lines g g' recs bas tss :
  prepareEIAData lines g = (g', Ok (recs, bas, tss)) ->
  ba_list g' = bas /\ ts_list g' = tss /\ eba_json g' = Some lines /\
  Forall (fun sid => is_Some (ba_of sid)) (string_ids lines) /\
  Forall ts_readable (string_ids lines).
Proof.
  unfold prepareEIAData. fold (string_ids lines).
  destruct (catalog_loop _ _ _) as [g1 [n1|e]] eqn:Hloop; [|discriminate].
  intros [= <- <- <- <-].
  pose proof (catalog_loop_Ok_readable _ _ _ _ _ Hloop) as Hts.
  apply catalog_loop_Ok in Hloop as (Hall & _ & _ & Hjson). by cbn in *.
Qed.

(** X16.  Loading the file a second time returns the same catalog of
    authorities, and a catalog of series that holds the entries of the
    first load followed by those of the ids of CISO once more. *)
Theorem second_load_repeats_the_series lines g g1 recs bas tss :
  prepareEIAData lines g = (g1, Ok (recs, bas, tss)) ->
  exists g2,
    prepareEIAData lines g1
    = (g2, Ok (lines, bas,
               tss ++ omap ts_of (List.filter is_ciso (string_ids lines)))).
Proof.
  intros H1.
  destruct (prepareEIAData_Ok_globals _ _ _ _ _ _ H1) as (Hb1 & Ht1 & _ & Hall & Hread).
  destruct (prepareEIAData_Ok _ _ _ _ _ _ H1) as (_ & Hbas & _).
  destruct (prepareEIAData_total lines g1 Hall Hread) as (g2 & bas2 & tss2 & H2).
  exists g2. rewrite H2.
  destruct (prepareEIAData_Ok _ _ _ _ _ _ H2) as (_ & -> & ->).
  rewrite Hb1, Ht1. do 3 f_equal.
  rewrite unique_from_all_seen; [by rewrite app_nil_r|].
  intros b Hb. rewrite Hbas, elem_of_app, elem_of_unique_from.
  destruct (decide (b ∈ ba_list g)); [by left|by right].
Qed.

Lemma second_load_repeats_the_series_witness :
  exists g2,
    prepareEIAData [id_line "EBA.CISO-ALL.D.H"; id_line "EBA.PJM-ALL.D.H"]
      (prepareEIAData [id_line "EBA.CISO-ALL.D.H"; id_line "EBA.PJM-ALL.D.H"]
         module_globals).1
    = (g2, Ok ([id_line "EBA.CISO-ALL.D.H"; id_line "EBA.PJM-ALL.D.H"],
               ["CISO"; "PJM"], ["D.H"; "D.H"])).
Proof.
  apply (second_load_repeats_the_series
           [id_line "EBA.CISO-ALL.D.H"; id_line "EBA.PJM-ALL.D.H"] module_globals
           (prepareEIAData [id_line "EBA.CISO-ALL.D.H"; id_line "EBA.PJM-ALL.D.H"]
              module_globals).1
           [id_line "EBA.CISO-ALL.D.H"; id_line "EBA.PJM-ALL.D.H"]
           ["CISO"; "PJM"] ["D.H"]).
  vm_compute. reflexivity.
Defined.

(** ** What the patterns capture *)

Lemma lazy_star_captures s cl acc m :
  lazy_star AnyChar after_group s {| closed := cl; opened := Some acc |} = Some m ->
  exists b, m = cl ++ [acc +:+ b].
Proof.
  revert acc. induction s as [|c s IH]; intros acc; cbn [lazy_star].
  - done.
  - rewrite after_group_cons. destruct (bool_decide ("-"%char = c)).
    + intros [= <-]. exists "". cbn. by rewrite append_empty.
    + destruct (accepts AnyChar c); [|done].
      unfold consume. cbn [closed opened fmap option_fmap option_map].
      intros H. apply IH in H as [b ->]. exists (String c b). by rewrite append_snoc.
Qed.

Lemma match_here_re_ba_captures s m :
  match_here re_ba s {| closed := []; opened := None |} = Some m ->
  exists c b, m = [String c b].
Proof.
  change (match_here re_ba s {| closed := []; opened := None |}) with
    (at_least_one (Lit "E"%char) (at_least_one (Lit "B"%char) (at_least_one (Lit "A"%char)
      (at_least_one AnyChar (fun s st =>
         at_least_one AnyChar (lazy_star AnyChar after_group) s
           {| closed := closed st; opened := Some "" |})))) s
       {| closed := []; opened := None |}).
  do 5 (destruct s as [|? s]; [done|]; cbn [at_least_one];
        destruct (accepts _ _); [|done]).
  unfold consume. cbn [closed opened fmap option_fmap option_map].
  intros H. apply lazy_star_captures in H as [b ->]. by do 2 eexists.
Qed.

Lemma search_re_ba_captures s m :
  search re_ba s = Some m -> exists c b, m = [String c b].
Proof.
  induction s as [|c s IH]; cbn [search].
  - destruct (match_here re_ba "" _) eqn:H; [|done].
    intros [= <-]. by eapply match_here_re_ba_captures.
  - destruct (match_here re_ba (String c s) _) eqn:H; [|exact IH].
    intros [= <-]. by eapply match_here_re_ba_captures.
Qed.

Lemma ba_of_nonempty sid b : ba_of sid = Some b -> b <> "".
Proof.
  intros (m & Hm & <-)%ba_of_search.
  by apply search_re_ba_captures in Hm as (c & b & ->).
Qed.

(** X17.  The loader never adds the empty string to the catalog of
    authorities: the first pattern captures one character at least. *)
Theorem catalog_has_no_empty_code lines g g' recs bas tss :
  prepareEIAData lines g = (g', Ok (recs, bas, tss)) ->
  "" ∉ ba_list g -> "" ∉ bas.
Proof.
  intros H Hg. apply prepareEIAData_Ok in H as (_ & -> & _).
  rewrite elem_of_app, elem_of_unique_from, list_elem_of_omap.
  intros [Hin|[(sid & _ & Hsid) _]]; [done|].
  by apply ba_of_nonempty in Hsid.
Qed.

Lemma catalog_has_no_empty_code_witness :
  "" ∉ ["-A"].
Proof.
  apply (catalog_has_no_empty_code [id_line "EBA.-A-B"] module_globals
           {| eba_json := Some [id_line "EBA.-A-B"]; ba_list := ["-A"]; ts_list := [] |}
           [id_line "EBA.-A-B"] ["-A"] []).
  - vm_compute. reflexivity.
  - apply not_elem_of_nil.
Defined.

Lemma consume_opened c cl acc :
  consume c {| closed := cl; opened := Some acc |}
  = {| closed := cl; opened := Some (acc +:+ String c "") |}.
Proof. reflexivity. Qed.

Lemma greedy_star_run a k run s cl acc m :
  all_in a run = true -> stops a s = true ->
  k s {| closed := cl; opened := Some (acc +:+ run) |} = Some m ->
  greedy_star a k (run +:+ s) {| closed := cl; opened := Some acc |} = Some m.
Proof.
  revert acc. induction run as [|c run IH]; intros acc Hrun Hstop Hk.
  - rewrite append_empty in Hk. change ("" +:+ s) with s.
    destruct s as [|c s]; cbn [greedy_star]; [done|].
    cbn [stops] in Hstop. apply negb_true_iff in Hstop. by rewrite Hstop.
  - change (String c run +:+ s) with (String c (run +:+ s)). cbn [greedy_star].
    unfold all_in in Hrun. cbn [list_ascii_of_string forallb] in Hrun.
    apply andb_prop in Hrun as [Hc Hrun]. rewrite Hc, consume_opened.
    rewrite (IH (acc +:+ String c "")); [done|done|done|].
    by rewrite append_snoc.
Qed.

(** X18.  For an id of CISO of the record format, EBA.CISO-, a first
    segment of capitals and dashes, a dot, and a rest of capitals, dots and
    dashes, the loader puts that rest in the catalog of series. *)
Theorem ts_of_record_format seg rest :
  seg <> "" -> all_in upper_or_dash seg = true -> all_in upper_dot_dash rest = true ->
  ba_of ("EBA.CISO-" +:+ seg +:+ "." +:+ rest) = Some "CISO" /\
  ts_of ("EBA.CISO-" +:+ seg +:+ "." +:+ rest) = Some rest.
Proof.
  intros Hne Hseg Hrest. split.
  { apply ba_of_format; reflexivity. }
  destruct seg as [|c seg]; [done|].
  unfold all_in in Hseg. cbn [list_ascii_of_string forallb] in Hseg.
  apply andb_prop in Hseg as [Hc Hseg].
  assert (Hm : match_here re_ts ("EBA.CISO-" +:+ String c seg +:+ "." +:+ rest)
                 {| closed := []; opened := None |}
               = Some [(("" +:+ String c "") +:+ seg) +:+ String "." ""; rest]).
  { change (match_here re_ts ("EBA.CISO-" +:+ String c seg +:+ "." +:+ rest)
              {| closed := []; opened := None |})
      with (at_least_one upper_or_dash (greedy_star upper_or_dash after_first_run)
              (String c (seg +:+ "." +:+ rest)) {| closed := []; opened := Some "" |}).
    cbn [at_least_one]. rewrite Hc, consume_opened.
    apply greedy_star_run; [done|reflexivity|].
    change (after_first_run ("." +:+ rest)
              {| closed := []; opened := Some (("" +:+ String c "") +:+ seg) |})
      with (greedy_star upper_dot_dash after_second_run rest
              {| closed := [(("" +:+ String c "") +:+ seg) +:+ String "." ""];
                 opened := Some "" |}).
    rewrite <- (append_empty rest) at 1.
    by apply greedy_star_run. }
  unfold ts_of. by rewrite (search_here _ _ _ Hm).
Qed.

Lemma ts_of_record_format_witness :
  ts_of "EBA.CISO-ALL.NG.WND.H" = Some "NG.WND.H".
Proof.
  apply (ts_of_record_format "ALL" "NG.WND.H"); [discriminate|reflexivity|reflexivity].
Defined.

(** * When the calls return *)





(** ** From the extractor to the aggregator *)





(** ** When the loader returns *)



